(** * Elasticsearch helpers of the operator: lifecycle policies, users, client bootstrap

    A shallow embedding of [pkg/controller/utils/elasticsearch.go]:
    - the storage budget planner ([calculateRolloverSize], [calculateRolloverAge]),
    - the policy synthesizer ([buildILMPolicy]) and decoder ([extractPolicyDetails]),
    - the diff-and-apply loop ([createOrUpdatePolicies]),
    - user and role provisioning ([RoleNames], [CreateUser], [DeleteUser]),
    - credential resolution and the bounded client construction loop
      ([getClientCredentials], [NewElasticClient]).

    Go values are modelled as follows: [int] and [int64] as [Z], [float64] as
    IEEE 754 binary64 ([spec_float] at precision 53), [map[string]T] as
    [gmap string T], slices as lists with an explicit nil, [error] as an
    inductive type, and remote calls as steps of an explicit remote state
    that are logged in a trace. *)

From Stdlib Require Import ZArith String Ascii List DecimalString SpecFloat Lia.
From stdpp Require Import gmap strings list sorting.

#[local] Set Warnings "-register-all".
#[local] Open Scope Z_scope.

(** ** Go runtime values *)

Module Go.

(** A slice is either nil or backed by a (possibly empty) array. *)
Inductive slice (A : Type) : Type :=
| nil_slice
| mk_slice (elems : list A).
Arguments nil_slice {A}.
Arguments mk_slice {A} elems.

Definition elems {A} (s : slice A) : list A :=
  match s with nil_slice => [] | mk_slice l => l end.

Definition len {A} (s : slice A) : Z := Z.of_nat (length (elems s)).

(** [append(s, x)]: the result is never nil. *)
Definition append {A} (s : slice A) (x : A) : slice A :=
  mk_slice (elems s ++ [x]).

Definition is_nil {A} (s : slice A) : bool :=
  match s with nil_slice => true | mk_slice _ => false end.

(** [fmt.Sprintf("%d", z)]. *)
Definition fmt_d (z : Z) : string := NilZero.string_of_int (Z.to_int z).

Definition min_int64 : Z := - 2 ^ 63.
Definition max_int64 : Z := 2 ^ 63 - 1.

(** [float64]: binary64, round to nearest even. *)
Definition float64 : Type := spec_float.
Definition prec : Z := 53.
Definition emax : Z := 1024.

(** [float64(z)] for an integer [z]. *)
Definition float64_of_int (z : Z) : float64 := binary_normalize prec emax z 0 false.
Definition fmul (x y : float64) : float64 := SFmul prec emax x y.
Definition fdiv (x y : float64) : float64 := SFdiv prec emax x y.
Definition fleb (x y : float64) : bool := SFleb x y.

(** The integer part of a finite float (truncation toward zero). *)
Definition trunc (f : float64) : option Z :=
  match f with
  | S754_zero _ => Some 0
  | S754_finite s m e =>
      Some (cond_Zopp s (if 0 <=? e then Z.pos m * 2 ^ e else Z.pos m / 2 ^ (- e)))
  | S754_infinity _ | S754_nan => None
  end.

(** [int64(f)]: truncation toward zero; for a value that int64 cannot
    represent the language leaves the result to the implementation, and
    amd64 yields the smallest int64. *)
Definition int64_of_float64 (f : float64) : Z :=
  match trunc f with
  | Some z => if (min_int64 <=? z) && (z <=? max_int64) then z else min_int64
  | None => min_int64
  end.

(** [error] values. [ElasticError] is the client library's [*elastic.Error]
    with its HTTP status; [Errorf] is [fmt.Errorf] of a fixed message;
    [OtherError] is any other error value. *)
Inductive error : Type :=
| ElasticError (status : Z) (reason : string)
| Errorf (msg : string)
| UnmarshalTypeError
| OtherError (msg : string).

(** [elastic.IsNotFound(err)]. *)
Definition IsNotFound (err : error) : bool :=
  match err with
  | ElasticError status _ => status =? 404
  | _ => false
  end.

(** A call either returns or panics (nil dereference). *)
Inductive outcome (A : Type) : Type :=
| Returned (a : A)
| Panicked.
Arguments Returned {A} a.
Arguments Panicked {A}.

End Go.
Export Go.

(** ** Constants *)

Definition ElasticsearchRetentionFactor : Z := 4.
Definition DefaultMaxIndexSizeGi : Z := 30.
Definition ElasticConnRetries : nat := 10.
Definition ElasticConnRetryInterval : string := "500ms".

(** ** Storage budget planner *)

(** [resource.MustParse(fmt.Sprintf("%dGi", n)).Value()]: [n] gibibytes in bytes. *)
Definition GiValue (n : Z) : Z := n * 2 ^ 30.

Definition calculateRolloverSize
    (totalEsStorage : Z) (diskPercentage diskForLogType : float64) : string :=
  let rolloverSize :=
    int64_of_float64
      (fdiv (fmul (fmul (float64_of_int totalEsStorage) diskPercentage) diskForLogType)
            (float64_of_int ElasticsearchRetentionFactor)) in
  let maxRolloverSize := GiValue DefaultMaxIndexSizeGi in
  let rolloverSize :=
    if rolloverSize >? maxRolloverSize then maxRolloverSize else rolloverSize in
  fmt_d rolloverSize +:+ "b".

Definition calculateRolloverAge (retention : Z) : string :=
  if retention <=? 0 then "1h"
  else if retention <? ElasticsearchRetentionFactor then "1d"
  else
    let rolloverAge := Z.quot retention ElasticsearchRetentionFactor in
    fmt_d rolloverAge +:+ "d".

(** ** Policy documents *)

(** Untyped documents ([map[string]interface{}] and what it may hold). *)
Inductive json : Type :=
| JNull
| JBool (b : bool)
| JNum (n : Z)
| JStr (s : string)
| JArr (l : list json)
| JObj (m : gmap string json).

Record policyDetail : Type := {
  rolloverAge : string;
  rolloverSize : string;
  deleteAge : string;
  readOnlyAfterRollover : bool;
  policy : gmap string json
}.

Definition obj (l : list (string * json)) : gmap string json := list_to_map l.

Definition buildILMPolicy
    (totalEsStorage : Z) (totalDiskPercentage percentOfDiskForLogType : float64)
    (retention : Z) (readOnlyAfterRollover : bool) : policyDetail :=
  let pd_rolloverSize :=
    calculateRolloverSize totalEsStorage totalDiskPercentage percentOfDiskForLogType in
  let pd_rolloverAge := calculateRolloverAge retention in
  let pd_deleteAge := fmt_d retention +:+ "d" in
  let warmActions : gmap string json :=
    obj [("set_priority", JObj (obj [("priority", JNum 50)]))] in
  let warmActions :=
    if readOnlyAfterRollover then <["readonly" := JObj ∅]> warmActions else warmActions in
  {| rolloverSize := pd_rolloverSize;
     rolloverAge := pd_rolloverAge;
     deleteAge := pd_deleteAge;
     readOnlyAfterRollover := readOnlyAfterRollover;
     policy :=
       obj [("policy", JObj (obj [("phases", JObj (obj [
         ("hot", JObj (obj [
            ("actions", JObj (obj [
               ("rollover", JObj (obj [
                  ("max_size", JStr pd_rolloverSize);
                  ("max_age", JStr pd_rolloverAge)]));
               ("set_priority", JObj (obj [("priority", JNum 100)]))]))]));
         ("warm", JObj (obj [("actions", JObj warmActions)]));
         ("delete", JObj (obj [
            ("min_age", JStr pd_deleteAge);
            ("actions", JObj (obj [("delete", JObj ∅)]))]))]))]))] |}.

(** *** Decoding an observed policy

    [extractPolicyDetails] marshals the observed document and unmarshals it
    into the [Policy] struct. The decoder visits the keys of every object
    in the order the encoder wrote them (sorted), stores into the struct
    field whose name equals the key up to letter case, skips other keys,
    leaves a field untouched on [null], and records a type error (while
    decoding on) when a value does not fit the field. Case folding is
    modelled for ASCII letters. *)

(** The [Policy] struct, its path of nested anonymous structs flattened. *)
Record Policy : Type := {
  Phases_Hot_Actions_Rollover_MaxSize : string;
  Phases_Hot_Actions_Rollover_MaxAge : string;
  Phases_Warm_Actions_Readonly : option unit;
  Phases_Delete_MinAge : string
}.

Definition zeroPolicy : Policy :=
  {| Phases_Hot_Actions_Rollover_MaxSize := "";
     Phases_Hot_Actions_Rollover_MaxAge := "";
     Phases_Warm_Actions_Readonly := None;
     Phases_Delete_MinAge := "" |}.

Definition set_MaxSize (s : string) (p : Policy) : Policy :=
  {| Phases_Hot_Actions_Rollover_MaxSize := s;
     Phases_Hot_Actions_Rollover_MaxAge := Phases_Hot_Actions_Rollover_MaxAge p;
     Phases_Warm_Actions_Readonly := Phases_Warm_Actions_Readonly p;
     Phases_Delete_MinAge := Phases_Delete_MinAge p |}.

Definition set_MaxAge (s : string) (p : Policy) : Policy :=
  {| Phases_Hot_Actions_Rollover_MaxSize := Phases_Hot_Actions_Rollover_MaxSize p;
     Phases_Hot_Actions_Rollover_MaxAge := s;
     Phases_Warm_Actions_Readonly := Phases_Warm_Actions_Readonly p;
     Phases_Delete_MinAge := Phases_Delete_MinAge p |}.

Definition set_Readonly (r : option unit) (p : Policy) : Policy :=
  {| Phases_Hot_Actions_Rollover_MaxSize := Phases_Hot_Actions_Rollover_MaxSize p;
     Phases_Hot_Actions_Rollover_MaxAge := Phases_Hot_Actions_Rollover_MaxAge p;
     Phases_Warm_Actions_Readonly := r;
     Phases_Delete_MinAge := Phases_Delete_MinAge p |}.

Definition set_MinAge (s : string) (p : Policy) : Policy :=
  {| Phases_Hot_Actions_Rollover_MaxSize := Phases_Hot_Actions_Rollover_MaxSize p;
     Phases_Hot_Actions_Rollover_MaxAge := Phases_Hot_Actions_Rollover_MaxAge p;
     Phases_Warm_Actions_Readonly := Phases_Warm_Actions_Readonly p;
     Phases_Delete_MinAge := s |}.

Module Decode.

(** Decoder state: the struct being filled and whether an error was saved. *)
Definition dstate : Type := Policy * bool.

Definition saveError (d : dstate) : dstate := (d.1, true).

Definition lower (c : ascii) : ascii :=
  let n := nat_of_ascii c in
  if (65 <=? n)%nat && (n <=? 90)%nat then ascii_of_nat (n + 32) else c.

Fixpoint foldName (s : string) : string :=
  match s with
  | EmptyString => EmptyString
  | String c s' => String (lower c) (foldName s')
  end.

Definition keyMatches (field key : string) : bool :=
  String.eqb (foldName field) (foldName key).

(** The entries of an object in encoding order. *)
Definition sortedEntries (m : gmap string json) : list (string * json) :=
  merge_sort (λ a b, Is_true (String.leb a.1 b.1)) (map_to_list m).

(** A struct decoder: the fields by name, each with the decoder of its value. *)
Definition fields : Type := list (string * (json → dstate → dstate)).

Fixpoint findField (fs : fields) (key : string) : option (json → dstate → dstate) :=
  match fs with
  | [] => None
  | (name, dec) :: fs' => if keyMatches name key then Some dec else findField fs' key
  end.

Definition decodeEntries (fs : fields) (m : gmap string json) (d : dstate) : dstate :=
  foldl (λ d kv, match findField fs kv.1 with
                 | Some dec => dec kv.2 d
                 | None => d
                 end) d (sortedEntries m).

Definition decodeStruct (fs : fields) (v : json) (d : dstate) : dstate :=
  match v with
  | JNull => d
  | JObj m => decodeEntries fs m d
  | _ => saveError d
  end.

Definition decodeString (set : string → Policy → Policy) (v : json) (d : dstate) : dstate :=
  match v with
  | JNull => d
  | JStr s => (set s d.1, d.2)
  | _ => saveError d
  end.

(** A [*struct{}] field: [null] resets the pointer, anything else allocates
    it; only an object fits the empty struct. *)
Definition decodeEmptyStructPtr
    (set : option unit → Policy → Policy) (v : json) (d : dstate) : dstate :=
  match v with
  | JNull => (set None d.1, d.2)
  | JObj _ => (set (Some ()) d.1, d.2)
  | _ => saveError (set (Some ()) d.1, d.2)
  end.

Definition rolloverFields : fields :=
  [("max_size", decodeString set_MaxSize); ("max_age", decodeString set_MaxAge)].
Definition hotActionsFields : fields := [("Rollover", decodeStruct rolloverFields)].
Definition hotFields : fields := [("Actions", decodeStruct hotActionsFields)].
Definition warmActionsFields : fields := [("readonly", decodeEmptyStructPtr set_Readonly)].
Definition warmFields : fields := [("Actions", decodeStruct warmActionsFields)].
Definition deleteFields : fields := [("min_age", decodeString set_MinAge)].
Definition phasesFields : fields :=
  [("Hot", decodeStruct hotFields); ("Warm", decodeStruct warmFields);
   ("Delete", decodeStruct deleteFields)].
Definition policyFields : fields := [("Phases", decodeStruct phasesFields)].

(** [json.Unmarshal(json.Marshal(policy), &existingPolicy)]; a nil map
    encodes as [null]. *)
Definition unmarshalPolicy (policy : option (gmap string json)) : error + Policy :=
  let v := match policy with None => JNull | Some m => JObj m end in
  let d := decodeStruct policyFields v (zeroPolicy, false) in
  if d.2 then inl UnmarshalTypeError else inr d.1.

End Decode.

Definition extractPolicyDetails (policy : option (gmap string json))
  : error + (string * string * string * bool) :=
  match Decode.unmarshalPolicy policy with
  | inl err => inl err
  | inr existingPolicy =>
      let currentMaxAge := Phases_Hot_Actions_Rollover_MaxAge existingPolicy in
      let currentMaxSize := Phases_Hot_Actions_Rollover_MaxSize existingPolicy in
      let currentMinAge := Phases_Delete_MinAge existingPolicy in
      let readOnlyAfterRollover :=
        match Phases_Warm_Actions_Readonly existingPolicy with
        | Some _ => true
        | None => false
        end in
      inr (currentMaxAge, currentMaxSize, currentMinAge, readOnlyAfterRollover)
  end.

(** ** The remote store *)

Module elastic.

Record XPackIlmGetLifecycleResponse : Type := {
  Policy : option (gmap string json)
}.

End elastic.

Record RoleIndex : Type := {
  Names : slice string;
  Privileges : slice string
}.

Record Application : Type := {
  Application_ : string;
  AppPrivileges : slice string;
  Resources : slice string
}.

Record RoleDefinition : Type := {
  Cluster : slice string;
  Indices : slice RoleIndex;
  Applications : slice Application
}.

(** The wire operations, each logged with what the store answered. *)
Inductive Event : Type :=
| XPackIlmGetLifecycle (policyName : string)
    (res : error + gmap string elastic.XPackIlmGetLifecycleResponse)
| XPackIlmPutLifecycle (policyName : string) (body : gmap string json) (err : option error)
| XPackSecurityPutRole (name : string) (body : option RoleDefinition) (err : option error)
| XPackSecurityPutUser (name : string) (body : gmap string json) (err : option error)
| XPackSecurityDeleteRole (name : string) (err : option error)
| XPackSecurityDeleteUser (name : string) (err : option error).

(** The store as the client sees it: every operation is a step of its state. *)
Record Remote (St : Type) : Type := {
  getLifecycle : string → St → (error + gmap string elastic.XPackIlmGetLifecycleResponse) * St;
  putLifecycle : string → gmap string json → St → option error * St;
  putRole : string → option RoleDefinition → St → option error * St;
  putUser : string → gmap string json → St → option error * St;
  deleteRole_ : string → St → option error * St;
  deleteUser_ : string → St → option error * St
}.
Arguments getLifecycle {St}.
Arguments putLifecycle {St}.
Arguments putRole {St}.
Arguments putUser {St}.
Arguments deleteRole_ {St}.
Arguments deleteUser_ {St}.

(** [*elastic.Client]: the options it was built from. *)
Record Certificate : Type := { certPEM : list Byte.byte; keyPEM : list Byte.byte }.
Record CertPool : Type := { poolPEM : list Byte.byte }.
Record tlsConfig : Type := { Certificates : list Certificate; RootCAs : option CertPool }.
Record httpClient : Type := { DisableKeepAlives : bool; TLSClientConfig : tlsConfig }.
Record ClientOptions : Type := {
  SetURL : string;
  SetHttpClient : httpClient;
  SetSniff : bool;
  SetHealthcheck : bool;
  SetBasicAuth : string * string
}.
Record Client : Type := { options : ClientOptions }.

Record esClient : Type := { client : option Client }.

(** The [ElasticClient] interface value: nil, or a pointer to an [esClient]. *)
Definition ElasticClient : Type := option esClient.

(** Computations against the store: they return or panic, move the store's
    state and log the operations they issued, in order. *)
Definition M (St A : Type) : Type := St → outcome A * St * list Event.

Definition ret {St A} (a : A) : M St A := λ s, (Returned a, s, []).

Definition bind {St A B} (m : M St A) (f : A → M St B) : M St B :=
  λ s, match m s with
       | (Returned a, s1, t1) =>
           match f a s1 with (r, s2, t2) => (r, s2, t1 ++ t2) end
       | (Panicked, s1, t1) => (Panicked, s1, t1)
       end.

Notation "'let*' x ':=' m 'in' k" := (bind m (λ x, k))
  (at level 10, x name, m at level 100, k at level 200, only parsing).

(** A request through [es.client]: [op] is the answer of the library and the
    store to it. On a nil client sending the request panics. (A request
    that the library refuses before sending it, for a missing name, is one
    of the answers of [op]; the names used here are not empty.) *)
Definition perform {St A} (es : esClient)
    (op : St → A * St) (log : A → Event) : M St A :=
  λ s, match client es with
       | None => (Panicked, s, [])
       | Some _ => match op s with (a, s1) => (Returned a, s1, [log a]) end
       end.

Section Operations.
Context {St : Type} (R : Remote St).

(** *** Policies *)

Definition applyILMPolicy (esClient : esClient) (indexName : string)
    (policy : gmap string json) : M St (option error) :=
  let policyName := indexName +:+ "_policy" in
  perform esClient (putLifecycle R policyName policy)
    (XPackIlmPutLifecycle policyName policy).

(** The loop over the map; [listPolicy] lists its entries in the order
    the iteration visits them. *)
Fixpoint createOrUpdatePolicies (es : esClient)
    (listPolicy : list (string * policyDetail)) : M St (option error) :=
  match listPolicy with
  | [] => ret None
  | (indexName, pd) :: rest =>
      let policyName := indexName +:+ "_policy" in
      let* r := perform es (getLifecycle R policyName) (XPackIlmGetLifecycle policyName) in
      match r with
      | inl err =>
          if IsNotFound err then applyILMPolicy es indexName (policy pd)
          else ret (Some err)
      | inr res =>
          match res !! policyName with
          | None => λ s, (Panicked, s, [])
          | Some lifecycle =>
              match extractPolicyDetails (elastic.Policy lifecycle) with
              | inl err => ret (Some err)
              | inr (currentMaxAge, currentMaxSize, currentMinAge, readOnly) =>
                  if negb (String.eqb currentMaxAge (rolloverAge pd))
                     || negb (String.eqb currentMaxSize (rolloverSize pd))
                     || negb (String.eqb currentMinAge (deleteAge pd))
                     || negb (Bool.eqb readOnly (readOnlyAfterRollover pd))
                  then applyILMPolicy es indexName (policy pd)
                  else createOrUpdatePolicies es rest
              end
          end
      end
  end.

End Operations.

(** *** The policies of a LogStorage *)

Record Retention : Type := {
  Flows : option Z;
  DNSLogs : option Z;
  BGPLogs : option Z;
  AuditReports : option Z;
  Snapshots : option Z;
  ComplianceReports : option Z
}.

(** [ls.Spec]: the retention settings (pointers, nil when unset) and the
    storage request of the nodes, if any, in bytes. *)
Record LogStorage : Type := {
  Spec_Retention : Retention;
  Spec_Nodes_ResourceRequirements : option (gmap string Z)
}.

(** [DefaultElasticStorageGi] is a constant of the render package. *)
Definition getTotalEsDisk (DefaultElasticStorageGi : Z) (ls : LogStorage) : Z :=
  let totalEsStorage := GiValue DefaultElasticStorageGi in
  match Spec_Nodes_ResourceRequirements ls with
  | Some requests =>
      match requests !! "storage"%string with
      | Some val => val
      | None => totalEsStorage
      end
  | None => totalEsStorage
  end.

(** A decimal constant [n/d] as the nearest float64. *)
Definition decimal (n d : Z) : float64 := fdiv (float64_of_int n) (float64_of_int d).

(** Dereferencing the retention pointers panics on nil. *)
Definition listILMPolicies (DefaultElasticStorageGi : Z) (ls : LogStorage)
  : outcome (gmap string policyDetail) :=
  let totalEsStorage := getTotalEsDisk DefaultElasticStorageGi ls in
  let majorPctOfTotalDisk := decimal 7 10 in
  let numOfIndicesWithMinorSpace := 6 in
  let minorPctOfTotalDisk := decimal 1 10 in
  let pctOfDisk := fdiv minorPctOfTotalDisk (float64_of_int numOfIndicesWithMinorSpace) in
  let r := Spec_Retention ls in
  match Flows r, DNSLogs r, BGPLogs r, AuditReports r, Snapshots r, ComplianceReports r with
  | Some flows, Some dnsLogs, Some bgpLogs, Some auditReports, Some snapshots,
    Some complianceReports =>
      Returned (list_to_map [
        ("tigera_secure_ee_flows",
           buildILMPolicy totalEsStorage majorPctOfTotalDisk (decimal 85 100) flows true);
        ("tigera_secure_ee_dns",
           buildILMPolicy totalEsStorage majorPctOfTotalDisk (decimal 5 100) dnsLogs true);
        ("tigera_secure_ee_bgp",
           buildILMPolicy totalEsStorage majorPctOfTotalDisk (decimal 5 100) bgpLogs true);
        ("tigera_secure_ee_l7",
           buildILMPolicy totalEsStorage majorPctOfTotalDisk (decimal 5 100) 1 true);
        ("tigera_secure_ee_audit_ee",
           buildILMPolicy totalEsStorage minorPctOfTotalDisk pctOfDisk auditReports true);
        ("tigera_secure_ee_audit_kube",
           buildILMPolicy totalEsStorage minorPctOfTotalDisk pctOfDisk auditReports true);
        ("tigera_secure_ee_snapshots",
           buildILMPolicy totalEsStorage minorPctOfTotalDisk pctOfDisk snapshots true);
        ("tigera_secure_ee_compliance_reports",
           buildILMPolicy totalEsStorage minorPctOfTotalDisk pctOfDisk complianceReports true);
        ("tigera_secure_ee_benchmark_results",
           buildILMPolicy totalEsStorage minorPctOfTotalDisk pctOfDisk 91 true);
        ("tigera_secure_ee_events",
           buildILMPolicy totalEsStorage minorPctOfTotalDisk pctOfDisk 91 false)])
  | _, _, _, _, _, _ => Panicked
  end.

(** [range] visits the entries of a map in an order of the runtime's
    choosing; [iter] is that choice. *)
Definition SetILMPolicies {St : Type} (R : Remote St)
    (iter : gmap string policyDetail → list (string * policyDetail))
    (DefaultElasticStorageGi : Z) (es : esClient) (ls : LogStorage)
  : M St (option error) :=
  match listILMPolicies DefaultElasticStorageGi ls with
  | Panicked => λ s, (Panicked, s, [])
  | Returned policyList => createOrUpdatePolicies R es (iter policyList)
  end.

(** A store that keeps what it is sent: a put replaces the policy of that
    name, a get answers with it or with status 404. The other operations
    are accepted and leave the policies alone. *)
Definition storedPolicy (body : gmap string json) : option (gmap string json) :=
  match body !! "policy"%string with
  | Some (JObj m) => Some m
  | _ => None
  end.

Definition policyStore : Remote (gmap string (gmap string json)) :=
  {| getLifecycle name st :=
       match st !! name with
       | Some body =>
           (inr {[ name := {| elastic.Policy := storedPolicy body |} ]}, st)
       | None => (inl (ElasticError 404 "resource_not_found_exception"), st)
       end;
     putLifecycle name body st := (None, <[name := body]> st);
     putRole _ _ st := (None, st);
     putUser _ _ st := (None, st);
     deleteRole_ _ st := (None, st);
     deleteUser_ _ st := (None, st) |}.

(** ** Users and roles *)

Record Role : Type := {
  Name : string;
  Definition_ : option RoleDefinition
}.

Record User : Type := {
  Username : string;
  Password : string;
  Roles : slice Role
}.

Definition RoleNames (u : User) : slice string :=
  let names := mk_slice [] in
  foldl (λ names role, append names (Name role)) names (elems (Roles u)).

(** How a slice of strings is written into a request body: nil is [null],
    anything else an array. *)
Definition stringsValue (s : slice string) : json :=
  match s with
  | nil_slice => JNull
  | mk_slice l => JArr (JStr <$> l)
  end.

Section UserOperations.
Context {St : Type} (R : Remote St).

Definition createRole (es : esClient) (role : Role) : M St (option error) :=
  if String.eqb (Name role) "" then ret (Some (Errorf "can't create a role with an empty name"))
  else
    let* err := perform es (putRole R (Name role) (Definition_ role))
                  (XPackSecurityPutRole (Name role) (Definition_ role)) in
    match err with
    | Some err => ret (Some err)
    | None => ret None
    end.

Fixpoint CreateRoles (es : esClient) (roles : list Role) : M St (option error) :=
  match roles with
  | [] => ret None
  | role :: roles' =>
      let* err := createRole es role in
      match err with
      | Some err => ret (Some err)
      | None => CreateRoles es roles'
      end
  end.

Definition CreateUser (es : esClient) (user : User) : M St (option error) :=
  let rolesToCreate :=
    foldl (λ rolesToCreate role,
             match Definition_ role with
             | Some _ => append rolesToCreate role
             | None => rolesToCreate
             end) nil_slice (elems (Roles user)) in
  let* err :=
    (if len rolesToCreate >? 0 then CreateRoles es (elems rolesToCreate) else ret None) in
  match err with
  | Some err => ret (Some err)
  | None =>
      let body : gmap string json :=
        obj [("password", JStr (Password user));
             ("roles", stringsValue (RoleNames user))] in
      let* err := perform es (putUser R (Username user) body)
                    (XPackSecurityPutUser (Username user) body) in
      match err with
      | Some err => ret (Some err)
      | None => ret None
      end
  end.

Definition deleteRole (es : esClient) (role : Role) : M St (option error) :=
  if String.eqb (Name role) "" then ret (Some (Errorf "can't delete a role with an empty name"))
  else
    let* err := perform es (deleteRole_ R (Name role)) (XPackSecurityDeleteRole (Name role)) in
    match err with
    | Some err => ret (Some err)
    | None => ret None
    end.

Fixpoint DeleteRoles (es : esClient) (roles : list Role) : M St (option error) :=
  match roles with
  | [] => ret None
  | role :: roles' =>
      let* err := deleteRole es role in
      match err with
      | Some err => ret (Some err)
      | None => DeleteRoles es roles'
      end
  end.

Definition DeleteUser (es : esClient) (user : User) : M St (option error) :=
  let* err := DeleteRoles es (elems (Roles user)) in
  match err with
  | Some err => ret (Some err)
  | None =>
      let* err := perform es (deleteUser_ R (Username user))
                    (XPackSecurityDeleteUser (Username user)) in
      match err with
      | Some err => ret (Some err)
      | None => ret None
      end
  end.

End UserOperations.

(** ** Client bootstrap *)

Record Secret : Type := { Data : gmap string (list Byte.byte) }.

Record CertificateManagement : Type := { CACert : list Byte.byte }.

Record Installation : Type := {
  Spec_CertificateManagement : option CertificateManagement
}.

(** What the bootstrap reads from its surroundings. The four secret names
    are constants of other packages; [clientGet] and [clientGetInstallation]
    are the cluster client's [Get] in the operator namespace; [GetSecret] is
    the package's helper that answers an absent secret with nil and no
    error; [AppendCertsFromPEM] and [X509KeyPair] are the certificate
    parsers; [NewClient] answers the [i]-th construction attempt. *)
Record Env : Type := {
  ElasticsearchAdminUserSecret : string;
  TigeraElasticsearchInternalCertSecret : string;
  ExternalESPublicCertName : string;
  ExternalCertsSecret : string;
  clientGet : string → error + Secret;
  clientGetInstallation : error + Installation;
  GetSecret : string → error + option Secret;
  AppendCertsFromPEM : list Byte.byte → bool;
  X509KeyPair : list Byte.byte → list Byte.byte → error + Certificate;
  NewClient : nat → ClientOptions → option error
}.

Definition getESRoots (env : Env) (secretName : string) : error + CertPool :=
  match clientGetInstallation env with
  | inl err => inl err
  | inr instance =>
      let caPEM : error + list Byte.byte :=
        match Spec_CertificateManagement instance with
        | Some cm => inr (CACert cm)
        | None =>
            match clientGet env secretName with
            | inl err => inl err
            | inr esPublicCert =>
                match Data esPublicCert !! "tls.crt"%string with
                | Some caPEM => inr caPEM
                | None => inl (Errorf "couldn't find tls.crt in Elasticsearch secret")
                end
            end
        end in
      match caPEM with
      | inl err => inl err
      | inr caPEM =>
          if AppendCertsFromPEM env caPEM then inr {| poolPEM := caPEM |}
          else inl (Errorf "failed to parse root certificate")
      end
  end.

Definition getClientCredentials (env : Env) (externalElastic : bool)
  : error + (string * string * CertPool) :=
  match clientGet env (ElasticsearchAdminUserSecret env) with
  | inl err => inl err
  | inr esSecret =>
      if negb (Z.of_nat (size (Data esSecret)) =? 1)
      then inl (Errorf "secret does not contain only 1 entry for credentials")
      else
        let '(username, password) :=
          foldl (λ _ kv, (kv.1, string_of_list_byte kv.2))
                (""%string, ""%string) (map_to_list (Data esSecret)) in
        if String.eqb username "" || String.eqb password ""
        then inl (Errorf "username or password is empty")
        else
          let secretName :=
            if externalElastic then ExternalESPublicCertName env
            else TigeraElasticsearchInternalCertSecret env in
          match getESRoots env secretName with
          | inl err => inl err
          | inr roots => inr (username, password, roots)
          end
  end.

(** [time.ParseDuration] on the form the constant has: an unsigned decimal
    count followed by one unit. Other forms the library reads (a sign, a
    fraction, several terms) are rejected here. The result is in nanoseconds. *)
Fixpoint leadingInt (s : string) (acc : option Z) : option Z * string :=
  match s with
  | String c s' =>
      let n := nat_of_ascii c in
      if (48 <=? n)%nat && (n <=? 57)%nat
      then leadingInt s' (Some (default 0 acc * 10 + Z.of_nat (n - 48)))
      else (acc, s)
  | EmptyString => (acc, s)
  end.

Definition unitNanos (u : string) : option Z :=
  if String.eqb u "ns" then Some 1
  else if String.eqb u "us" then Some 1000
  else if String.eqb u "ms" then Some 1000000
  else if String.eqb u "s" then Some 1000000000
  else if String.eqb u "m" then Some 60000000000
  else if String.eqb u "h" then Some 3600000000000
  else None.

Definition ParseDuration (s : string) : error + Z :=
  match leadingInt s None with
  | (Some n, u) =>
      match unitNanos u with
      | Some ns => inr (n * ns)
      | None => inl (Errorf "time: invalid duration")
      end
  | (None, _) => inl (Errorf "time: invalid duration")
  end.

Inductive BootEvent : Type :=
| EvNewClient (attempt : nat) (opts : ClientOptions) (err : option error)
| EvSleep (nanoseconds : Z).

(** The construction loop: [n] attempts remain, [i] were made. *)
Fixpoint connectLoop (env : Env) (opts : ClientOptions) (retryInterval : Z)
    (n i : nat) (esCli : option Client) (err : option error)
  : option Client * option error * list BootEvent :=
  match n with
  | O => (esCli, err, [])
  | S n' =>
      match NewClient env i opts with
      | None => (Some {| options := opts |}, None, [EvNewClient i opts None])
      | Some e =>
          match connectLoop env opts retryInterval n' (S i) None (Some e) with
          | (c, err', t) =>
              (c, err', EvNewClient i opts (Some e) :: EvSleep retryInterval :: t)
          end
      end
  end.

Definition NewElasticClient (env : Env) (elasticHTTPSEndpoint : string) (external : bool)
  : ElasticClient * option error * list BootEvent :=
  match getClientCredentials env external with
  | inl err => (None, Some err, [])
  | inr (user, password, root) =>
      let clientCertificates : error + list Certificate :=
        if external then
          match GetSecret env (ExternalCertsSecret env) with
          | inl err => inl err
          | inr None => inl (Errorf "mTLS is enabled but no client certificate was provided")
          | inr (Some certSecret) =>
              match X509KeyPair env (default [] (Data certSecret !! "client.crt"%string))
                                    (default [] (Data certSecret !! "client.key"%string)) with
              | inl err => inl err
              | inr cert => inr [cert]
              end
          end
        else inr [] in
      match clientCertificates with
      | inl err => (None, Some err, [])
      | inr clientCertificates =>
          (* [root] is never nil here, and [Certificates] stays empty
             without client certificates. *)
          let tlsClientConfig :=
            {| Certificates := clientCertificates; RootCAs := Some root |} in
          let h :=
            {| DisableKeepAlives := true; TLSClientConfig := tlsClientConfig |} in
          let options :=
            {| SetURL := elasticHTTPSEndpoint;
               SetHttpClient := h;
               SetSniff := false;
               SetHealthcheck := false;
               SetBasicAuth := (user, password) |} in
          match ParseDuration ElasticConnRetryInterval with
          | inl err => (None, Some err, [])
          | inr retryInterval =>
              match connectLoop env options retryInterval ElasticConnRetries 0 None None with
              | (esCli, err, t) => (Some {| client := esCli |}, err, t)
              end
          end
      end
  end.

(** ** Names, the built-in users, listing users, reading secrets *)

Definition formatName (name clusterID tenantID : string) : string :=
  name +:+ "_" +:+ clusterID +:+ "_" +:+ tenantID.

Definition indexPattern (prefix cluster suffix tenant : string) : string :=
  if negb (String.eqb tenant "")
  then prefix +:+ "." +:+ tenant +:+ "." +:+ cluster +:+ suffix
  else prefix +:+ "." +:+ cluster +:+ suffix.

Definition ElasticsearchUserNameLinseed : string := "tigera-ee-linseed".
Definition ElasticsearchUserNameDashboardInstaller : string := "tigera-ee-dashboards-installer".

Definition LinseedUser (clusterID tenant : string) : User :=
  let username := formatName ElasticsearchUserNameLinseed clusterID tenant in
  {| Username := username;
     Password := "";
     Roles := mk_slice [
       {| Name := username;
          Definition_ := Some
            {| Cluster := mk_slice ["monitor"; "manage_index_templates"; "manage_ilm"]%string;
               Indices := mk_slice [
                 {| Names := mk_slice [indexPattern "tigera_secure_ee_*" "*" ".*" tenant;
                                       "calico_*"%string];
                    Privileges :=
                      mk_slice ["create_index"; "write"; "manage"; "read"]%string |}];
               Applications := nil_slice |} |}] |}.

Definition DashboardUser (clusterID tenant : string) : User :=
  let username := formatName ElasticsearchUserNameDashboardInstaller clusterID tenant in
  {| Username := username;
     Password := "";
     Roles := mk_slice [
       {| Name := username;
          Definition_ := Some
            {| Cluster := nil_slice;
               Indices := mk_slice [];
               Applications := mk_slice [
                 {| Application_ := "kibana-.kibana";
                    AppPrivileges := mk_slice ["all"%string];
                    Resources := mk_slice ["*"%string] |}] |} |}] |}.

(** One user of the answer to the list-users request: its role names. *)
Record XPackSecurityUser : Type := { user_Roles : slice string }.

(** [GetUsers]: [doGetUser] is the answer of the library and the store to
    the list-users request, [iter] the order in which the runtime visits
    the entries of the answer. *)
Definition GetUsers {St : Type} (es : esClient)
    (doGetUser : St → (error + gmap string XPackSecurityUser) * St)
    (iter : gmap string XPackSecurityUser → list (string * XPackSecurityUser))
    (st : St) : outcome (slice User * option error) * St :=
  match client es with
  | None => (Panicked, st)
  | Some _ =>
      match doGetUser st with
      | (inl err, st1) => (Returned (mk_slice [], Some err), st1)
      | (inr usersResponse, st1) =>
          let users :=
            foldl (λ users entry,
                     let user :=
                       foldl (λ user roleName,
                                {| Username := Username user;
                                   Password := Password user;
                                   Roles := append (Roles user)
                                              {| Name := roleName; Definition_ := None |} |})
                             {| Username := entry.1; Password := ""; Roles := nil_slice |}
                             (elems (user_Roles entry.2)) in
                     append users user)
                  (mk_slice []) (iter usersResponse) in
          (Returned (users, None), st1)
      end
  end.

(** [ElasticsearchSecrets]: the secrets of the given names, read in order
    from the operator namespace. *)
Fixpoint ElasticsearchSecrets_loop (env : Env) (userSecretNames : list string)
    (esUserSecrets : slice Secret) : error + slice Secret :=
  match userSecretNames with
  | [] => inr esUserSecrets
  | userSecretName :: rest =>
      match clientGet env userSecretName with
      | inl err => inl err
      | inr esUserSecret =>
          ElasticsearchSecrets_loop env rest (append esUserSecrets esUserSecret)
      end
  end.

Definition ElasticsearchSecrets (env : Env) (userSecretNames : list string)
  : error + slice Secret :=
  ElasticsearchSecrets_loop env userSecretNames nil_slice.

(** ** Vocabulary of the statements and sample inputs *)

Definition GiB100 : Z := 100 * 2 ^ 30.
Definition zero : float64 := float64_of_int 0.
Definition one : float64 := float64_of_int 1.

Definition four : float64 := float64_of_int ElasticsearchRetentionFactor.

(** A float that is zero, or positive and at most [2^K]. *)
Definition below (K : Z) (x : float64) : Prop :=
  match x with
  | S754_zero _ => True
  | S754_finite false m e => Z.pos m ≤ 2 ^ (K - e)
  | _ => False
  end.

(** The value at a path of keys of a document. *)
Fixpoint lookupPath (path : list string) (v : json) : option json :=
  match path with
  | [] => Some v
  | k :: path' =>
      match v with
      | JObj m => match m !! k with Some v' => lookupPath path' v' | None => None end
      | _ => None
      end
  end.

Definition isDeleteUser (ev : Event) : bool :=
  match ev with XPackSecurityDeleteUser _ _ => true | _ => false end.

Definition isPutLifecycle (ev : Event) : bool :=
  match ev with XPackIlmPutLifecycle _ _ _ => true | _ => false end.

(** The role-delete calls of [roles], every one acknowledged. *)
Definition roleDeletes (roles : list Role) : list Event :=
  (λ role, XPackSecurityDeleteRole (Name role) None) <$> roles.

(** What the failing role-delete leaves in the log: nothing when the name
    was empty (no request is made), the refused request otherwise. *)
Definition failedRoleDelete (role : Role) (e : error) : list Event :=
  if String.eqb (Name role) "" then [] else [XPackSecurityDeleteRole (Name role) (Some e)].

Definition someClient : Client :=
  {| options :=
       {| SetURL := "https://tigera-secure-es-http.tigera-elasticsearch.svc:9200";
          SetHttpClient :=
            {| DisableKeepAlives := true;
               TLSClientConfig := {| Certificates := []; RootCAs := None |} |};
          SetSniff := false;
          SetHealthcheck := false;
          SetBasicAuth := ("elastic"%string, "secret"%string) |} |}.

Definition connected : esClient := {| client := Some someClient |}.

Definition noRolesUser : User :=
  {| Username := "tigera-ee-linseed_cluster_"; Password := "pw"; Roles := nil_slice |}.

Definition twoRolesUser : User :=
  {| Username := "u";
     Password := "pw";
     Roles := mk_slice [ {| Name := "r1"; Definition_ := None |};
                         {| Name := "r2"; Definition_ := None |} ] |}.

(** A store that refuses to delete the role [r2]. *)
Definition refusingStore : Remote unit :=
  {| getLifecycle _ st := (inl (ElasticError 404 "not found"), st);
     putLifecycle _ _ st := (None, st);
     putRole _ _ st := (None, st);
     putUser _ _ st := (None, st);
     deleteRole_ name st :=
       (if String.eqb name "r2" then Some (ElasticError 500 "refused") else None, st);
     deleteUser_ _ st := (None, st) |}.

(** The secret is not a usable pair of credentials. *)
Definition credentialsMalformed (s : Secret) : Prop :=
  size (Data s) ≠ 1%nat
  ∨ ∃ k v, Data s = {[ k := v ]} ∧ (k = ""%string ∨ v = []).

Definition credentialsError (e : error) : Prop :=
  e = Errorf "secret does not contain only 1 entry for credentials"
  ∨ e = Errorf "username or password is empty".

Definition caSecretName (env : Env) (external : bool) : string :=
  if external then ExternalESPublicCertName env
  else TigeraElasticsearchInternalCertSecret env.

(** The client certificates were read: none for internal access, the pair
    of the client-certificate secret for external access. *)
Definition certificatesLoaded (env : Env) (external : bool) (certs : list Certificate) : Prop :=
  if external then
    ∃ certSecret cert,
      GetSecret env (ExternalCertsSecret env) = inr (Some certSecret)
      ∧ X509KeyPair env (default [] (Data certSecret !! "client.crt"%string))
                        (default [] (Data certSecret !! "client.key"%string)) = inr cert
      ∧ certs = [cert]
  else certs = [].

Definition builtOptions (endpoint user password : string) (root : CertPool)
    (certs : list Certificate) : ClientOptions :=
  {| SetURL := endpoint;
     SetHttpClient :=
       {| DisableKeepAlives := true;
          TLSClientConfig := {| Certificates := certs; RootCAs := Some root |} |};
     SetSniff := false;
     SetHealthcheck := false;
     SetBasicAuth := (user, password) |}.

Definition isNewClient (ev : BootEvent) : bool :=
  match ev with EvNewClient _ _ _ => true | EvSleep _ => false end.

Definition attempts (t : list BootEvent) : nat := length (List.filter isNewClient t).

(** A failed attempt and the sleep that follows it. *)
Definition failedAttempt (opts : ClientOptions) (retryInterval : Z)
    (errs : nat → error) (i : nat) : list BootEvent :=
  [EvNewClient i opts (Some (errs i)); EvSleep retryInterval].

Definition ms500 : Z := 500 * 1000000.

Definition bytes (s : string) : list Byte.byte := list_byte_of_string s.

(** A cluster with the admin secret [adminData], no certificate management
    and an internal certificate secret; [newClient] decides the attempts. *)
Definition sampleEnv (adminData : gmap string (list Byte.byte))
    (newClient : nat → option error) : Env :=
  {| ElasticsearchAdminUserSecret := "tigera-secure-es-admin-user";
     TigeraElasticsearchInternalCertSecret := "tigera-secure-internal-elasticsearch-cert";
     ExternalESPublicCertName := "tigera-secure-es-http-certs-public";
     ExternalCertsSecret := "tigera-secure-external-es-certs";
     clientGet name :=
       if String.eqb name "tigera-secure-es-admin-user"
       then inr {| Data := adminData |}
       else if String.eqb name "tigera-secure-internal-elasticsearch-cert"
       then inr {| Data := {[ "tls.crt"%string := bytes "PEM" ]} |}
       else inl (OtherError "not found");
     clientGetInstallation := inr {| Spec_CertificateManagement := None |};
     GetSecret _ := inr None;
     AppendCertsFromPEM _ := true;
     X509KeyPair _ _ := inl (OtherError "no key pair");
     NewClient i _ := newClient i |}.

Definition goodAdmin : gmap string (list Byte.byte) := {[ "elastic"%string := bytes "pw" ]}.

Definition attemptError (i : nat) : error := OtherError (fmt_d (Z.of_nat i)).

Definition unreachableEnv : Env := sampleEnv goodAdmin (λ i, Some (attemptError i)).

Definition flakyEnv : Env :=
  sampleEnv goodAdmin (λ i, if (i <? 3)%nat then Some (attemptError i) else None).

Definition sampleOptions : ClientOptions :=
  builtOptions "https://es:9200" "elastic" "pw" {| poolPEM := bytes "PEM" |} [].

Definition policyNameOf (indexName : string) : string := indexName +:+ "_policy".

(** The comparison of [createOrUpdatePolicies]: some observed field is not
    the desired one. *)
Definition fieldsDiffer (pd : policyDetail)
    (currentMaxAge currentMaxSize currentMinAge : string) (readOnly : bool) : bool :=
  negb (String.eqb currentMaxAge (rolloverAge pd))
  || negb (String.eqb currentMaxSize (rolloverSize pd))
  || negb (String.eqb currentMinAge (deleteAge pd))
  || negb (Bool.eqb readOnly (readOnlyAfterRollover pd)).

(** The answer to a fetch shows a policy whose four comparison fields are
    the desired ones. *)
Definition observedEqual (pd : policyDetail) (policyName : string)
    (res : error + gmap string elastic.XPackIlmGetLifecycleResponse) : Prop :=
  ∃ m lifecycle,
    res = inr m ∧ m !! policyName = Some lifecycle
    ∧ extractPolicyDetails (elastic.Policy lifecycle)
      = inr (rolloverAge pd, rolloverSize pd, deleteAge pd, readOnlyAfterRollover pd).

(** The answer to a fetch makes the loop apply the desired policy. *)
Definition callsForApply (pd : policyDetail) (policyName : string)
    (res : error + gmap string elastic.XPackIlmGetLifecycleResponse) : Prop :=
  match res with
  | inl err => IsNotFound err = true
  | inr m =>
      ∃ lifecycle a s d ro,
        m !! policyName = Some lifecycle
        ∧ extractPolicyDetails (elastic.Policy lifecycle) = inr (a, s, d, ro)
        ∧ fieldsDiffer pd a s d ro = true
  end.

(** A LogStorage with the default retentions and no storage request. *)
Definition defaultLogStorage : LogStorage :=
  {| Spec_Retention :=
       {| Flows := Some 8; DNSLogs := Some 8; BGPLogs := Some 8;
          AuditReports := Some 91; Snapshots := Some 91; ComplianceReports := Some 91 |};
     Spec_Nodes_ResourceRequirements := None |}.

Definition flowsPolicy : policyDetail :=
  buildILMPolicy GiB100 (decimal 7 10) (decimal 85 100) 8 true.

Definition dnsPolicy : policyDetail :=
  buildILMPolicy GiB100 (decimal 7 10) (decimal 5 100) 8 true.

Definition twoPolicies : gmap string policyDetail :=
  list_to_map [("tigera_secure_ee_flows"%string, flowsPolicy);
               ("tigera_secure_ee_dns"%string, dnsPolicy)].

Definition notFound : error := ElasticError 404 "resource_not_found_exception".

(** ** Vocabulary of the further statements *)

Definition hasDefinition (role : Role) : bool :=
  match Definition_ role with Some _ => true | None => false end.

(** The roles [CreateUser] creates: those with a definition, in order. *)
Definition definedRoles (roles : list Role) : list Role := List.filter hasDefinition roles.

(** The role upserts of [roles], every one acknowledged. *)
Definition rolePuts (roles : list Role) : list Event :=
  (λ role, XPackSecurityPutRole (Name role) (Definition_ role) None) <$> roles.

Definition failedRolePut (role : Role) (e : error) : list Event :=
  if String.eqb (Name role) "" then []
  else [XPackSecurityPutRole (Name role) (Definition_ role) (Some e)].

Definition isPutUser (ev : Event) : bool :=
  match ev with XPackSecurityPutUser _ _ _ => true | _ => false end.

(** The body of the user upsert. *)
Definition userBody (user : User) : gmap string json :=
  obj [("password", JStr (Password user));
       ("roles", JArr (JStr <$> (Name <$> elems (Roles user))))].

Definition isSleep (ev : BootEvent) : bool :=
  match ev with EvSleep _ => true | EvNewClient _ _ _ => false end.

(** The error of attempt [i], when it fails. *)
Definition attemptErr (env : Env) (opts : ClientOptions) (i : nat) : error :=
  default (OtherError "") (NewClient env i opts).


(** The ten index names of [listILMPolicies]. *)
Definition indexNames : list string :=
  ["tigera_secure_ee_flows"; "tigera_secure_ee_dns"; "tigera_secure_ee_bgp";
   "tigera_secure_ee_l7"; "tigera_secure_ee_audit_ee"; "tigera_secure_ee_audit_kube";
   "tigera_secure_ee_snapshots"; "tigera_secure_ee_compliance_reports";
   "tigera_secure_ee_benchmark_results"; "tigera_secure_ee_events"]%string.

(** A store of users that answers the list-users request from a fixed table. *)
Definition usersTable : gmap string XPackSecurityUser :=
  {[ "elastic"%string := {| user_Roles := mk_slice ["superuser"%string] |};
     "tigera-ee-linseed_cluster_"%string :=
       {| user_Roles := mk_slice ["tigera-ee-linseed_cluster_"%string] |};
     "nobody"%string := {| user_Roles := nil_slice |} ]}.

(** Whether the store holds, under the policy name of a category, a
    document whose four comparison fields equal the desired ones. *)
Definition inSync (st : gmap string (gmap string json))
    (indexName : string) (pd : policyDetail) : bool :=
  match st !! policyNameOf indexName with
  | Some body =>
      match extractPolicyDetails (storedPolicy body) with
      | inr (a, s, d, ro) => negb (fieldsDiffer pd a s d ro)
      | inl _ => false
      end
  | None => false
  end.

(** Every document of the store decodes. *)
Definition readable (st : gmap string (gmap string json)) : Prop :=
  ∀ name body, st !! name = Some body →
    ∃ fields, extractPolicyDetails (storedPolicy body) = inr fields.

(** The number of categories of [listPolicy] that are not in sync. *)
Definition outOfSync (st : gmap string (gmap string json))
    (listPolicy : list (string * policyDetail)) : nat :=
  length (List.filter (λ entry, negb (inSync st entry.1 entry.2)) listPolicy).

(** A policy detail that [buildILMPolicy] made. *)
Definition built (pd : policyDetail) : Prop :=
  ∃ total p q retention ro, pd = buildILMPolicy total p q retention ro.

(** Successive reconcile runs against the store that keeps what it is
    sent, one per iteration order. *)
Definition reconcile (es : esClient) (orders : list (list (string * policyDetail)))
    (st : gmap string (gmap string json)) : gmap string (gmap string json) :=
  foldl (λ st order, (createOrUpdatePolicies policyStore es order st).1.2) st orders.

(** The fetch of a category as the store that keeps what it is sent
    answers it in state [st]. *)
Definition fetchOf (st : gmap string (gmap string json))
    (entry : string * policyDetail) : Event :=
  XPackIlmGetLifecycle (policyNameOf entry.1)
    (getLifecycle policyStore (policyNameOf entry.1) st).1.

(** A stored document whose phases are not an object. *)
Definition garbled : gmap string json :=
  {[ "policy"%string := JObj {[ "phases"%string := JStr "none" ]} ]}.

Definition flowsThenDns : list (string * policyDetail) :=
  [("tigera_secure_ee_flows"%string, flowsPolicy); ("tigera_secure_ee_dns"%string, dnsPolicy)].

(** * Properties *)

(** ** Storage budget planner *)

(** *** Rounding stays below a bounding power of two *)

Lemma iter_pos_nat {A} (f : A → A) (p : positive) (x : A) :
  SpecFloat.iter_pos f p x = Nat.iter (Pos.to_nat p) f x.
Proof.
  revert x. induction p as [p IH | p IH |]; intros x.
  - change (SpecFloat.iter_pos f p~1 x)
      with (SpecFloat.iter_pos f p (SpecFloat.iter_pos f p (f x))).
    rewrite !IH, Pos2Nat.inj_xI, Nat.iter_succ_r.
    replace (2 * Pos.to_nat p)%nat with (Pos.to_nat p + Pos.to_nat p)%nat by lia.
    now rewrite Nat.iter_add.
  - change (SpecFloat.iter_pos f p~0 x)
      with (SpecFloat.iter_pos f p (SpecFloat.iter_pos f p x)).
    rewrite !IH, Pos2Nat.inj_xO.
    replace (2 * Pos.to_nat p)%nat with (Pos.to_nat p + Pos.to_nat p)%nat by lia.
    now rewrite Nat.iter_add.
  - reflexivity.
Qed.

Lemma shr_1_spec (mrs : shr_record) :
  0 ≤ shr_m mrs →
  shr_m (shr_1 mrs) = shr_m mrs / 2
  ∧ shr_r (shr_1 mrs) = Z.odd (shr_m mrs)
  ∧ shr_s (shr_1 mrs) = shr_r mrs || shr_s mrs.
Proof.
  destruct mrs as [m r s]. simpl. intros Hm.
  rewrite <- Z.div2_div.
  destruct m as [| [p | p |] | p]; try lia; simpl; auto.
Qed.

Lemma shr_iter_spec (n : nat) (mrs : shr_record) :
  0 ≤ shr_m mrs →
  shr_m (Nat.iter n shr_1 mrs) = shr_m mrs / 2 ^ Z.of_nat n
  ∧ (shr_m mrs mod 2 ^ Z.of_nat n = 0 → shr_r mrs = false → shr_s mrs = false →
     shr_r (Nat.iter n shr_1 mrs) = false ∧ shr_s (Nat.iter n shr_1 mrs) = false).
Proof.
  intros Hm. induction n as [| n [IHm IHx]].
  - simpl. rewrite Z.div_1_r. auto.
  - simpl Nat.iter.
    assert (Hpos : 0 ≤ shr_m (Nat.iter n shr_1 mrs)).
    { rewrite IHm. apply Z.div_pos; [lia | apply Z.pow_pos_nonneg; lia]. }
    destruct (shr_1_spec _ Hpos) as (E1 & E2 & E3).
    rewrite E1, E2, E3, IHm. split.
    + rewrite Nat2Z.inj_succ, Z.pow_succ_r by lia.
      rewrite Z.div_div by (try apply Z.pow_pos_nonneg; lia).
      f_equal. lia.
    + intros Hmod Hr Hs.
      rewrite Nat2Z.inj_succ, Z.pow_succ_r in Hmod by lia.
      assert (H2n : 0 < 2 ^ Z.of_nat n) by (apply Z.pow_pos_nonneg; lia).
      assert (Hmod' : shr_m mrs mod 2 ^ Z.of_nat n = 0).
      { apply Z.mod_divide in Hmod; [| lia]. apply Z.mod_divide; [lia |].
        destruct Hmod as [c Hc]. exists (c * 2). lia. }
      destruct (IHx Hmod' Hr Hs) as [-> ->]. split; [| reflexivity].
      apply Z.mod_divide in Hmod; [| lia]. destruct Hmod as [c Hc].
      rewrite Hc. replace (c * (2 * 2 ^ Z.of_nat n)) with ((c * 2) * 2 ^ Z.of_nat n) by lia.
      rewrite Z.div_mul by lia. rewrite Z.odd_mul. simpl. now rewrite andb_false_r.
Qed.

Lemma digits2_pos_size (p : positive) : digits2_pos p = Pos.size p.
Proof. induction p; simpl; congruence. Qed.

Lemma Zdigits2_bounds (p : positive) :
  2 ^ (Z.pos (digits2_pos p) - 1) ≤ Z.pos p < 2 ^ Z.pos (digits2_pos p).
Proof.
  rewrite digits2_pos_size. split.
  - pose proof (Pos.size_le p) as H.
    apply Pos2Z.pos_le_pos in H. rewrite Pos2Z.inj_pow in H.
    replace (Z.pos (Pos.size p)) with (Z.succ (Z.pos (Pos.size p) - 1)) in H by lia.
    rewrite Z.pow_succ_r in H by lia. lia.
  - pose proof (Pos.size_gt p) as H.
    apply Pos2Z.pos_lt_pos in H. now rewrite Pos2Z.inj_pow in H.
Qed.

Lemma fexp64 (e : Z) : fexp 53 1024 e = Z.max (e - 53) (-1074).
Proof. reflexivity. Qed.

Lemma loc_of_shr_record_of_loc m l : loc_of_shr_record (shr_record_of_loc m l) = l.
Proof. destruct l as [| []]; reflexivity. Qed.

Lemma shr_m_record_of_loc m l : shr_m (shr_record_of_loc m l) = m.
Proof. destruct l as [| []]; reflexivity. Qed.

Lemma pow2_pos (n : Z) : 0 ≤ n → 0 < 2 ^ n.
Proof. intros. apply Z.pow_pos_nonneg; lia. Qed.

Lemma pow2_le_inv (a b : Z) : 0 ≤ b → 2 ^ a ≤ 2 ^ b → a ≤ b.
Proof.
  intros Hb H. destruct (Z_le_gt_dec a b) as [| Hgt]; [assumption |].
  assert (2 ^ b < 2 ^ a) by (apply Z.pow_lt_mono_r; lia). lia.
Qed.

(** One alignment step of the rounding: a mantissa below [2^(K-E)] stays
    below the power of two at its new exponent, and reaches it only
    exactly. *)
Lemma shr_fexp_le (M E K : Z) (l : location) :
  0 ≤ M → -1074 ≤ K →
  M ≤ 2 ^ (K - E) →
  (M = 2 ^ (K - E) → l = loc_Exact) →
  let '(mrs, e') := shr_fexp 53 1024 M E l in
  0 ≤ shr_m mrs
  ∧ shr_m mrs ≤ 2 ^ (K - e')
  ∧ (shr_m mrs = 2 ^ (K - e') → loc_of_shr_record mrs = loc_Exact).
Proof.
  intros HM HK Hle Hex. unfold shr_fexp, shr.
  rewrite fexp64.
  destruct (Z.max (Zdigits2 M + E - 53) (-1074) - E) as [| k | k] eqn:Hk.
  1,3: rewrite shr_m_record_of_loc, loc_of_shr_record_of_loc; auto.
  rewrite iter_pos_nat.
  assert (Hm0 : 0 ≤ shr_m (shr_record_of_loc M l)) by now rewrite shr_m_record_of_loc.
  destruct (shr_iter_spec (Pos.to_nat k) _ Hm0) as [Em Ex].
  rewrite positive_nat_Z, shr_m_record_of_loc in Em, Ex. rewrite Em.
  assert (H2k : 0 < 2 ^ Z.pos k) by (apply pow2_pos; lia).
  assert (Hfit : Z.pos k ≤ K - E).
  { destruct M as [| m | m]; [| | lia].
    - simpl in Hk. lia.
    - assert (0 ≤ K - E).
      { destruct (Z_le_gt_dec 0 (K - E)); [assumption |].
        rewrite Z.pow_neg_r in Hle by lia. lia. }
      pose proof (Zdigits2_bounds m) as [Hd _]. simpl in Hk.
      assert (Z.pos (digits2_pos m) - 1 ≤ K - E) by (apply pow2_le_inv; lia).
      lia. }
  assert (Hsplit : 2 ^ (K - E) = 2 ^ (K - (E + Z.pos k)) * 2 ^ Z.pos k).
  { rewrite <- Z.pow_add_r by lia. f_equal. lia. }
  split; [apply Z.div_pos; lia |]. split.
  - rewrite <- (Z.div_mul (2 ^ (K - (E + Z.pos k))) (2 ^ Z.pos k)) by lia.
    apply Z.div_le_mono; lia.
  - intros Heq.
    assert (HMge : 2 ^ (K - E) ≤ M).
    { rewrite Hsplit, <- Heq. rewrite Z.mul_comm. apply Z.mul_div_le. lia. }
    assert (HMeq : M = 2 ^ (K - E)) by lia.
    assert (Hl : l = loc_Exact) by auto. subst l.
    destruct Ex as [Hr Hs]; try reflexivity.
    + rewrite HMeq, Hsplit. apply Z.mod_mul. lia.
    + destruct (Nat.iter (Pos.to_nat k) shr_1 (shr_record_of_loc M loc_Exact)) as [m' r' s'].
      simpl in Hr, Hs. subst. reflexivity.
Qed.

Lemma round_nearest_even_le (m B : Z) (l : location) :
  m ≤ B → (m = B → l = loc_Exact) →
  m ≤ round_nearest_even m l ≤ B.
Proof.
  intros Hle Hex. destruct l as [| []]; simpl; try lia.
  - assert (m ≠ B) by (intros ->; specialize (Hex eq_refl); discriminate).
    destruct (Z.even m); lia.
  - assert (m ≠ B) by (intros ->; specialize (Hex eq_refl); discriminate). lia.
Qed.

(** Rounding to nearest keeps a non-negative value at or below a power of
    two that bounds it. *)
Lemma binary_round_aux_le (s : bool) (M E K : Z) (l : location) :
  0 ≤ M → -1074 ≤ K ≤ 971 →
  M ≤ 2 ^ (K - E) →
  (M = 2 ^ (K - E) → l = loc_Exact) →
  match binary_round_aux 53 1024 s M E l with
  | S754_zero s' => s' = s
  | S754_finite s' m e => s' = s ∧ Z.pos m ≤ 2 ^ (K - e)
  | _ => False
  end.
Proof.
  intros HM HK Hle Hex. unfold binary_round_aux.
  pose proof (shr_fexp_le M E K l HM (proj1 HK) Hle Hex) as H1.
  destruct (shr_fexp 53 1024 M E l) as [mrs1 e1].
  destruct H1 as (H1pos & H1le & H1ex).
  pose proof (round_nearest_even_le _ _ _ H1le H1ex) as [H2lo H2hi].
  set (m2 := round_nearest_even (shr_m mrs1) (loc_of_shr_record mrs1)) in *.
  pose proof (shr_fexp_le m2 e1 K loc_Exact ltac:(lia) (proj1 HK) H2hi (λ _, eq_refl)) as H3.
  destruct (shr_fexp 53 1024 m2 e1 loc_Exact) as [mrs3 e3].
  destruct H3 as (H3pos & H3le & _).
  destruct (shr_m mrs3) as [| m3 | m3]; [reflexivity | | lia].
  assert (0 ≤ K - e3).
  { destruct (Z_le_gt_dec 0 (K - e3)); [assumption |].
    rewrite Z.pow_neg_r in H3le by lia. lia. }
  change (1024 - 53) with 971.
  destruct (Z.leb_spec e3 971); [auto | lia].
Qed.

Lemma pow2_base_nonneg (K e : Z) (m : positive) : Z.pos m ≤ 2 ^ (K - e) → 0 ≤ K - e.
Proof.
  intros H. destruct (Z_le_gt_dec 0 (K - e)); [assumption |].
  rewrite Z.pow_neg_r in H by lia. lia.
Qed.

Lemma round_below (s : bool) (M E K : Z) (l : location) :
  s = false → 0 ≤ M → -1074 ≤ K ≤ 971 →
  M ≤ 2 ^ (K - E) → (M = 2 ^ (K - E) → l = loc_Exact) →
  below K (binary_round_aux prec emax s M E l).
Proof.
  intros -> HM HK Hle Hex.
  pose proof (binary_round_aux_le false M E K l HM HK Hle Hex) as H.
  unfold below, prec, emax.
  destruct (binary_round_aux 53 1024 false M E l) as [| | | s m e]; try easy.
  now destruct H as [-> H].
Qed.

Lemma iter_xO_nat (n : nat) (m : positive) :
  Z.pos (Nat.iter n xO m) = Z.pos m * 2 ^ Z.of_nat n.
Proof.
  induction n as [| n IH]; [simpl; lia |].
  rewrite Nat2Z.inj_succ, Z.pow_succ_r by lia.
  change (Nat.iter (S n) xO m) with (xO (Nat.iter n xO m)).
  set (q := Nat.iter n xO m) in *. lia.
Qed.

Lemma iter_xO (m d : positive) : Z.pos (Pos.iter xO m d) = Z.pos m * 2 ^ Z.pos d.
Proof.
  rewrite Pos2Nat.inj_iter.
  pose proof (iter_xO_nat (Pos.to_nat d) m) as H. unfold Nat.iter in H.
  now rewrite H, positive_nat_Z.
Qed.

Lemma float64_of_int_below (total : Z) :
  0 < total ≤ max_int64 → below 63 (float64_of_int total).
Proof.
  intros [Hpos Hmax]. unfold max_int64 in Hmax.
  destruct total as [| t | t]; try lia.
  unfold float64_of_int, binary_normalize, binary_round, shl_align.
  change (fexp prec emax (Z.pos (digits2_pos t) + 0)) with (fexp 53 1024 (Z.pos (digits2_pos t) + 0)).
  rewrite fexp64.
  destruct (Z.max (Z.pos (digits2_pos t) + 0 - 53) (-1074) - 0) as [| d | d] eqn:Hd.
  - apply round_below; try reflexivity; try lia; simpl; lia.
  - apply round_below; try reflexivity; try lia; simpl; lia.
  - assert (He : Z.max (Z.pos (digits2_pos t) + 0 - 53) (-1074) = Z.neg d) by lia.
    rewrite He. apply round_below; try reflexivity; try lia.
    rewrite iter_xO. replace (63 - Z.neg d) with (63 + Z.pos d) by lia.
    rewrite Z.pow_add_r by lia.
    apply Z.mul_le_mono_nonneg; try lia; apply Z.pow_nonneg; lia.
Qed.

Lemma fmul_below (K : Z) (x y : float64) :
  -1074 ≤ K ≤ 971 → below K x → below 0 y → below K (fmul x y).
Proof.
  intros HK Hx Hy. unfold fmul.
  destruct x as [sx | sx | | sx mx ex], y as [sy | sy | | sy my ey]; simpl in *; try easy.
  destruct sx, sy; try easy.
  pose proof (pow2_base_nonneg _ _ _ Hx). pose proof (pow2_base_nonneg _ _ _ Hy).
  apply round_below; try reflexivity; try lia.
  replace (K - (ex + ey)) with ((K - ex) + (0 - ey)) by lia.
  rewrite Z.pow_add_r, Pos2Z.inj_mul by lia.
  apply Z.mul_le_mono_nonneg; lia.
Qed.

Lemma unit_interval_below (p : float64) :
  valid_binary prec emax p = true → fleb zero p = true → fleb p one = true → below 0 p.
Proof.
  intros Hvalid H0 H1.
  destruct p as [s | s | | s m e]; simpl; try easy.
  - destruct s; discriminate.
  - destruct s; [discriminate |].
    unfold valid_binary, bounded, canonical_mantissa in Hvalid.
    apply andb_true_iff in Hvalid as [Hc _]. apply Z.eqb_eq in Hc.
    change (fexp prec emax) with (fexp 53 1024) in Hc. rewrite fexp64 in Hc.
    pose proof (Zdigits2_bounds m) as [_ Hd].
    assert (Hm : Z.pos m < 2 ^ 53).
    { eapply Z.lt_le_trans; [exact Hd |]. apply Z.pow_le_mono_r; lia. }
    assert (E1 : one = S754_finite false 4503599627370496 (-52)) by (vm_compute; reflexivity).
    unfold fleb in H1. rewrite E1 in H1. unfold SFleb, SFcompare in H1.
    destruct (Z.compare_spec e (-52)) as [-> | Hlt | Hgt]; try discriminate.
    + pose proof (Pos.compare_spec m 4503599627370496%positive) as Hs.
      unfold Pos.compare in Hs.
      destruct Hs as [-> | Hlt | Hgt]; try discriminate H1.
      * change (0 - -52) with 52. lia.
      * apply Pos2Z.pos_lt_pos in Hlt. change (0 - -52) with 52. lia.
    + assert (2 ^ 53 ≤ 2 ^ (0 - e)) by (apply Z.pow_le_mono_r; lia). lia.
Qed.

Lemma four_eq : four = S754_finite false 4503599627370496 (-50).
Proof. vm_compute. reflexivity. Qed.

Lemma two52 : Z.pos 4503599627370496 = 2 ^ 52.
Proof. reflexivity. Qed.

Lemma fdiv_four_below (K : Z) (x : float64) :
  -1072 ≤ K ≤ 973 → below K x → below (K - 2) (fdiv x four).
Proof.
  intros HK Hx. unfold fdiv. rewrite four_eq.
  destruct x as [sx | sx | | sx mx ex]; try easy.
  destruct sx; [easy |]. simpl in Hx.
  pose proof (pow2_base_nonneg _ _ _ Hx) as Hbase.
  pose proof (Zdigits2_bounds mx) as [Hd _].
  assert (Hdig : Z.pos (digits2_pos mx) - 1 ≤ K - ex) by (apply pow2_le_inv; lia).
  unfold SFdiv, SFdiv_core_binary.
  change (Zdigits2 (Z.pos mx)) with (Z.pos (digits2_pos mx)).
  change (Zdigits2 (Z.pos 4503599627370496)) with 53.
  change (fexp prec emax) with (fexp 53 1024). rewrite fexp64.
  set (e' := Z.min (Z.max (Z.pos (digits2_pos mx) + ex - (53 + -50) - 53) (-1074)) (ex - -50)).
  set (s := ex - -50 - e').
  assert (Hs : 0 ≤ s) by (unfold s, e'; lia).
  assert (He' : e' ≤ K - 2) by (unfold e'; lia).
  set (m' := match s with Z.pos _ => Z.shiftl (Z.pos mx) s | 0 => Z.pos mx | Z.neg _ => 0 end).
  assert (Hm' : m' = Z.pos mx * 2 ^ s).
  { unfold m'. destruct s as [| p | p] eqn:Es; [simpl; lia | | lia].
    now rewrite Z.shiftl_mul_pow2 by lia. }
  assert (H2s : 0 < 2 ^ s) by (apply pow2_pos; lia).
  assert (Hm'le : m' ≤ 2 ^ (K - 2 - e') * 2 ^ 52).
  { rewrite Hm', <- Z.pow_add_r by lia.
    replace (K - 2 - e' + 52) with ((K - ex) + s) by (unfold s; lia).
    rewrite Z.pow_add_r by lia. apply Z.mul_le_mono_nonneg_r; lia. }
  assert (Hm'pos : 0 ≤ m') by (rewrite Hm'; lia).
  rewrite two52.
  pose proof (Z_div_mod m' (2 ^ 52) ltac:(lia)) as Hdm.
  destruct (Z.div_eucl m' (2 ^ 52)) as [q r]. destruct Hdm as [Hq Hr].
  assert (H2K : 0 < 2 ^ (K - 2 - e')) by (apply pow2_pos; lia).
  assert (HB : 0 < 2 ^ 52) by lia.
  assert (Hqle : q ≤ 2 ^ (K - 2 - e')).
  { apply (Z.mul_le_mono_pos_r _ _ (2 ^ 52) HB).
    rewrite (Z.mul_comm q). lia. }
  assert (Hq0 : 0 ≤ q).
  { destruct (Z_le_gt_dec 0 q); [assumption |].
    assert (2 ^ 52 * q ≤ 2 ^ 52 * (-1)) by (apply Z.mul_le_mono_nonneg_l; lia). lia. }
  apply round_below; try reflexivity; try lia.
  intros Hqe. subst q.
  assert (r = 0) by (rewrite (Z.mul_comm (2 ^ 52)) in Hq; lia).
  subst r. reflexivity.
Qed.

Lemma below_trunc (x : float64) :
  below 61 x →
  ∃ z, trunc x = Some z ∧ 0 ≤ z ≤ 2 ^ 61 ∧ int64_of_float64 x = z.
Proof.
  intros Hx.
  assert (Hin : ∀ z, 0 ≤ z ≤ 2 ^ 61 →
            (if (min_int64 <=? z) && (z <=? max_int64) then z else min_int64) = z).
  { intros z Hz. unfold min_int64, max_int64.
    destruct (Z.leb_spec (- 2 ^ 63) z); [| lia].
    destruct (Z.leb_spec z (2 ^ 63 - 1)); [reflexivity | lia]. }
  destruct x as [sx | sx | | sx mx ex]; try easy.
  - exists 0. unfold int64_of_float64. simpl. split; [reflexivity | split; [lia |]].
    reflexivity.
  - destruct sx; [easy |]. simpl in Hx.
    pose proof (pow2_base_nonneg _ _ _ Hx) as Hbase.
    unfold int64_of_float64, trunc. simpl cond_Zopp.
    set (z := if 0 <=? ex then Z.pos mx * 2 ^ ex else Z.pos mx / 2 ^ (- ex)).
    assert (Hz : 0 ≤ z ≤ 2 ^ 61).
    { unfold z. destruct (Z.leb_spec 0 ex).
      - assert (0 < 2 ^ ex) by (apply pow2_pos; lia).
        assert (E : 2 ^ 61 = 2 ^ (61 - ex) * 2 ^ ex).
        { rewrite <- Z.pow_add_r by lia. f_equal. lia. }
        rewrite E. split; [lia |].
        apply Z.mul_le_mono_nonneg_r; lia.
      - assert (0 < 2 ^ (- ex)) by (apply pow2_pos; lia).
        split; [apply Z.div_pos; lia |].
        assert (E : 2 ^ (61 - ex) = 2 ^ (- ex) * 2 ^ 61).
        { rewrite <- Z.pow_add_r by lia. f_equal. lia. }
        rewrite E in Hx.
        apply Z.div_le_upper_bound; lia. }
    exists z. split; [reflexivity | split; [exact Hz | now apply Hin]].
Qed.

Lemma rollover_in_range (total : Z) (p q : float64) :
  0 < total ≤ max_int64 →
  valid_binary prec emax p = true → fleb zero p = true → fleb p one = true →
  valid_binary prec emax q = true → fleb zero q = true → fleb q one = true →
  ∃ z, trunc (fdiv (fmul (fmul (float64_of_int total) p) q) four) = Some z
       ∧ 0 ≤ z ≤ 2 ^ 61
       ∧ int64_of_float64 (fdiv (fmul (fmul (float64_of_int total) p) q) four) = z.
Proof.
  intros Ht Hvp Hp0 Hp1 Hvq Hq0 Hq1.
  apply below_trunc. change 61 with (63 - 2).
  apply fdiv_four_below; [lia |].
  apply fmul_below; [lia | | now apply unit_interval_below].
  apply fmul_below; [lia | | now apply unit_interval_below].
  now apply float64_of_int_below.
Qed.

(** Whatever the inputs, what is written is the smaller of the converted
    value and the cap. *)
Lemma calculateRolloverSize_capped (total : Z) (p q : float64) :
  calculateRolloverSize total p q
  = (fmt_d (Z.min (int64_of_float64
                     (fdiv (fmul (fmul (float64_of_int total) p) q) four))
                  (30 * 2 ^ 30)) +:+ "b")%string.
Proof.
  unfold calculateRolloverSize. fold four.
  change (GiValue DefaultMaxIndexSizeGi) with (30 * 2 ^ 30).
  set (raw := int64_of_float64 _).
  destruct (Z.gtb_spec raw (30 * 2 ^ 30)) as [Hgt | Hle].
  - now rewrite Z.min_r by lia.
  - now rewrite Z.min_l by lia.
Qed.

(** C3. For a positive total (an int64), shares that are float64 values
    between 0 and 1 and a non-negative retention, the float64 value
    [total * share * share / 4] has an integer part [exact] between 0 and
    [2^61], so its conversion to int64 is that integer part; the rollover
    size of the synthesized policy is the smaller of [exact] and 30 GiB,
    written in decimal and followed by [b]; that number is at most 30 GiB. *)
Theorem rolloverSize_min_cap (total : Z) (p q : float64) (retention : Z) (ro : bool) :
  0 < total ≤ max_int64 →
  valid_binary prec emax p = true → fleb zero p = true → fleb p one = true →
  valid_binary prec emax q = true → fleb zero q = true → fleb q one = true →
  0 ≤ retention →
  ∃ exact : Z,
    trunc (fdiv (fmul (fmul (float64_of_int total) p) q) (float64_of_int 4)) = Some exact
    ∧ 0 ≤ exact ≤ 2 ^ 61
    ∧ rolloverSize (buildILMPolicy total p q retention ro)
      = (fmt_d (Z.min exact (30 * 2 ^ 30)) +:+ "b")%string
    ∧ calculateRolloverSize total p q
      = (fmt_d (Z.min exact (30 * 2 ^ 30)) +:+ "b")%string
    ∧ 0 ≤ Z.min exact (30 * 2 ^ 30) ≤ 30 * 2 ^ 30.
Proof.
  intros Ht Hvp Hp0 Hp1 Hvq Hq0 Hq1 _.
  destruct (rollover_in_range total p q Ht Hvp Hp0 Hp1 Hvq Hq0 Hq1)
    as (exact & Htrunc & Hrange & Hconv).
  exists exact. split; [exact Htrunc | split; [exact Hrange |]].
  assert (E : calculateRolloverSize total p q
              = (fmt_d (Z.min exact (30 * 2 ^ 30)) +:+ "b")%string).
  { rewrite calculateRolloverSize_capped. now rewrite Hconv. }
  split; [exact E | split; [exact E | lia]].
Qed.

Lemma rolloverSize_min_cap_witness :
  rolloverSize (buildILMPolicy GiB100 (decimal 7 10) (decimal 85 100) 8 true)
  = "15971909632b"%string
  ∧ rolloverSize (buildILMPolicy (2 ^ 63 - 1) one one 8 true) = "32212254720b"%string.
Proof.
  split.
  - destruct (rolloverSize_min_cap GiB100 (decimal 7 10) (decimal 85 100) 8 true)
      as (exact & Htrunc & _ & Hsize & _);
      [vm_compute; split; congruence | vm_compute; congruence .. |].
    vm_compute in Htrunc. injection Htrunc as <-. exact Hsize.
  - destruct (rolloverSize_min_cap (2 ^ 63 - 1) one one 8 true)
      as (exact & Htrunc & _ & Hsize & _);
      [vm_compute; split; congruence | vm_compute; congruence .. |].
    vm_compute in Htrunc. injection Htrunc as <-. exact Hsize.
Defined.

(** C4. The rollover age is one hour for a retention of zero days or less,
    one day for a retention below four days, and otherwise the retention
    divided by four, rounded down, in days. *)
Theorem calculateRolloverAge_cases (retentionDays : Z) :
  (retentionDays ≤ 0 → calculateRolloverAge retentionDays = "1h"%string)
  ∧ (0 < retentionDays < 4 → calculateRolloverAge retentionDays = "1d"%string)
  ∧ (4 ≤ retentionDays →
     calculateRolloverAge retentionDays = (fmt_d (retentionDays / 4) +:+ "d")%string)
  ∧ calculateRolloverAge 0 = "1h"%string
  ∧ calculateRolloverAge 1 = "1d"%string
  ∧ calculateRolloverAge 8 = "2d"%string.
Proof.
  unfold calculateRolloverAge, ElasticsearchRetentionFactor.
  repeat split; try reflexivity.
  - intros H. destruct (Z.leb_spec retentionDays 0); [reflexivity | lia].
  - intros [H0 H4].
    destruct (Z.leb_spec retentionDays 0); [lia |].
    destruct (Z.ltb_spec retentionDays 4); [reflexivity | lia].
  - intros H.
    destruct (Z.leb_spec retentionDays 0); [lia |].
    destruct (Z.ltb_spec retentionDays 4); [lia |].
    rewrite Z.quot_div_nonneg by lia. reflexivity.
Qed.

Lemma calculateRolloverAge_cases_witness :
  calculateRolloverAge (-2) = "1h"%string
  ∧ calculateRolloverAge 3 = "1d"%string
  ∧ calculateRolloverAge 91 = "22d"%string.
Proof.
  split; [| split].
  - apply (proj1 (calculateRolloverAge_cases (-2))). lia.
  - apply (proj1 (proj2 (calculateRolloverAge_cases 3))). lia.
  - apply (proj1 (proj2 (proj2 (calculateRolloverAge_cases 91)))). lia.
Defined.

(** C5. The delete minimum age of the synthesized policy, both in the
    policy detail and in the document under [policy.phases.delete.min_age],
    is the retention written in decimal followed by [d], whatever its sign:
    retention 0 gives [0d] and retention -3 gives [-3d]. *)
Theorem buildILMPolicy_deleteAge_literal
    (total : Z) (p q : float64) (retentionDays : Z) (ro : bool) :
  let pd := buildILMPolicy total p q retentionDays ro in
  deleteAge pd = (fmt_d retentionDays +:+ "d")%string
  ∧ lookupPath ["policy"; "phases"; "delete"; "min_age"]%string (JObj (policy pd))
    = Some (JStr (fmt_d retentionDays +:+ "d"))
  ∧ deleteAge (buildILMPolicy total p q 0 ro) = "0d"%string
  ∧ deleteAge (buildILMPolicy total p q (-3) ro) = "-3d"%string.
Proof. repeat split; reflexivity. Qed.

(** ** Policy documents *)

(** Decoding reads back the four comparison fields that the synthesizer
    wrote. *)
Lemma extract_build t p q r ro :
  extractPolicyDetails (storedPolicy (policy (buildILMPolicy t p q r ro)))
  = inr (calculateRolloverAge r, calculateRolloverSize t p q, (fmt_d r +:+ "d")%string, ro).
Proof. destruct ro; reflexivity. Qed.

(** ** Users and roles *)

Lemma RoleNames_foldl (roles : list Role) (acc : list string) :
  foldl (λ names role, append names (Name role)) (mk_slice acc) roles
  = mk_slice (acc ++ (Name <$> roles)).
Proof.
  revert acc. induction roles as [| role roles IH]; intros acc; simpl.
  - now rewrite app_nil_r.
  - unfold append at 2. simpl. rewrite IH. now rewrite <- app_assoc.
Qed.

Section UserFacts.
Context {St : Type} (R : Remote St).

Lemma CreateRoles_no_PutUser es roles st name body err :
  XPackSecurityPutUser name body err ∉ (CreateRoles R es roles st).2.
Proof.
  revert st. induction roles as [| role roles IH]; intros st; simpl.
  - apply not_elem_of_nil.
  - unfold createRole, bind, perform, ret.
    destruct (String.eqb (Name role) ""); simpl; [apply not_elem_of_nil |].
    destruct (client es); simpl; [| apply not_elem_of_nil].
    destruct (putRole R (Name role) (Definition_ role) st) as [[e |] st1]; simpl.
    + intros H. apply list_elem_of_singleton in H. discriminate.
    + specialize (IH st1).
      destruct (CreateRoles R es roles st1) as [[r st2] t2]; simpl in *.
      intros H. apply elem_of_cons in H as [H | H]; [discriminate | contradiction].
Qed.

Lemma DeleteRoles_trace es roles st :
  (∃ st', DeleteRoles R es roles st = (Returned None, st', roleDeletes roles))
  ∨ (∃ k role e st',
       roles !! k = Some role
       ∧ DeleteRoles R es roles st
         = (Returned (Some e), st', roleDeletes (take k roles) ++ failedRoleDelete role e))
  ∨ (∃ st' k, client es = None
       ∧ DeleteRoles R es roles st = (Panicked, st', roleDeletes (take k roles))).
Proof.
  revert st. induction roles as [| role roles IH]; intros st.
  - left. now exists st.
  - simpl. unfold deleteRole, bind, perform, ret, failedRoleDelete.
    destruct (String.eqb (Name role) "") eqn:Hname; simpl.
    { right; left. exists 0%nat, role, (Errorf "can't delete a role with an empty name"), st.
      simpl. rewrite Hname. done. }
    destruct (client es) eqn:Hc; simpl.
    2:{ right; right. exists st, 0%nat. done. }
    destruct (deleteRole_ R (Name role) st) as [[e |] st1] eqn:Hdel; simpl.
    { right; left. exists 0%nat, role, e, st1. simpl. rewrite Hname. done. }
    destruct (IH st1) as [(st' & ->) | [(k & role' & e & st' & Hk & ->) | (st' & k & Hc' & _)]].
    + left. now exists st'.
    + right; left. exists (S k), role', e, st'. done.
    + congruence.
Qed.

End UserFacts.

(** C8. [RoleNames] is the list of the names of the user's roles in order,
    never nil, also for a user without roles; it is written into a request
    body as an array, never as [null]; and every user upsert that
    [CreateUser] sends carries that array under [roles]. *)
Theorem RoleNames_initialized (u : User) :
  RoleNames u = mk_slice (Name <$> elems (Roles u))
  ∧ is_nil (RoleNames u) = false
  ∧ stringsValue (RoleNames u) = JArr (JStr <$> (Name <$> elems (Roles u)))
  ∧ (elems (Roles u) = [] → stringsValue (RoleNames u) = JArr [])
  ∧ ∀ (St : Type) (R : Remote St) (es : esClient) (st : St) name body err,
      XPackSecurityPutUser name body err ∈ (CreateUser R es u st).2 →
      name = Username u
      ∧ body !! "roles"%string = Some (JArr (JStr <$> (Name <$> elems (Roles u))))
      ∧ body !! "roles"%string ≠ Some JNull.
Proof.
  assert (E : RoleNames u = mk_slice (Name <$> elems (Roles u))).
  { unfold RoleNames. now rewrite RoleNames_foldl. }
  split; [exact E |]. rewrite E. simpl.
  split; [reflexivity |]. split; [reflexivity |].
  split; [now intros -> |].
  intros St R es st name body err.
  unfold CreateUser, bind.
  set (rolesToCreate := foldl _ nil_slice _).
  set (m := if len rolesToCreate >? 0 then CreateRoles R es (elems rolesToCreate)
            else ret None).
  assert (Hroles : XPackSecurityPutUser name body err ∉ (m st).2).
  { unfold m. destruct (len rolesToCreate >? 0).
    - apply CreateRoles_no_PutUser.
    - apply not_elem_of_nil. }
  destruct (m st) as [[r st1] t1]; simpl in Hroles.
  destruct r as [[e |] |]; simpl.
  - rewrite app_nil_r. intros H. contradiction.
  - rewrite E. unfold perform, ret. destruct (client es); simpl.
    2:{ rewrite app_nil_r. intros H. contradiction. }
    destruct (putUser R (Username u) _ st1) as [[e |] st2]; simpl;
      intros H; apply elem_of_app in H as [H | H]; try contradiction;
      apply list_elem_of_singleton in H; injection H as -> -> _;
      (split; [reflexivity | split; [reflexivity | discriminate]]).
  - intros H. contradiction.
Qed.

Lemma RoleNames_initialized_witness :
  RoleNames noRolesUser = mk_slice []
  ∧ (CreateUser policyStore connected noRolesUser ∅).2
    = [XPackSecurityPutUser "tigera-ee-linseed_cluster_"
         (obj [("password", JStr "pw"); ("roles", JArr [])]) None]
  ∧ obj [("password", JStr "pw"); ("roles", JArr [])] !! "roles"%string ≠ Some JNull.
Proof.
  split; [reflexivity | split; [reflexivity |]].
  apply (proj2 (proj2 (proj2 (proj2 (RoleNames_initialized noRolesUser))))
           _ policyStore connected ∅ "tigera-ee-linseed_cluster_"%string _ None).
  vm_compute. apply list_elem_of_here.
Defined.

(** C9. [DeleteUser] deletes the roles of the user in order and stops at
    the first role that cannot be deleted, returning that error without
    deleting the user; only after a role-delete call for every attached
    role has succeeded does it issue the user-delete call, once, as its
    last request. (Through a nil client the first request panics.) *)
Theorem DeleteUser_roles_then_user {St : Type} (R : Remote St)
    (es : esClient) (user : User) (st : St) :
  let roles := elems (Roles user) in
  let '(r, _, t) := DeleteUser R es user st in
  (∃ err, r = Returned err
      ∧ t = roleDeletes roles ++ [XPackSecurityDeleteUser (Username user) err])
  ∨ (∃ k role e, roles !! k = Some role
      ∧ r = Returned (Some e)
      ∧ t = roleDeletes (take k roles) ++ failedRoleDelete role e
      ∧ Forall (λ ev, isDeleteUser ev = false) t)
  ∨ (client es = None ∧ r = Panicked ∧ Forall (λ ev, isDeleteUser ev = false) t).
Proof.
  intros roles. unfold DeleteUser, bind. fold roles.
  assert (Hrd : ∀ l, Forall (λ ev, isDeleteUser ev = false) (roleDeletes l)).
  { intros l. unfold roleDeletes. apply Forall_fmap. now apply Forall_true. }
  destruct (DeleteRoles_trace R es roles st)
    as [(st' & ->) | [(k & role & e & st' & Hk & ->) | (st' & k & Hc & ->)]].
  - unfold perform, ret. destruct (client es) eqn:Hc; simpl.
    + destruct (deleteUser_ R (Username user) st') as [[e |] st2]; simpl;
        left; eexists; rewrite ?app_nil_r; done.
    + right; right. rewrite ?app_nil_r. done.
  - simpl. rewrite ?app_nil_r. right; left. exists k, role, e.
    repeat split; try done.
    apply Forall_app. split; [apply Hrd |].
    unfold failedRoleDelete. destruct (String.eqb (Name role) ""); repeat constructor.
  - right; right. done.
Qed.

Lemma DeleteUser_roles_then_user_witness :
  DeleteUser policyStore connected twoRolesUser ∅
  = (Returned None, ∅,
     [XPackSecurityDeleteRole "r1" None; XPackSecurityDeleteRole "r2" None;
      XPackSecurityDeleteUser "u" None])
  ∧ DeleteUser refusingStore connected twoRolesUser ()
    = (Returned (Some (ElasticError 500 "refused")), (),
       [XPackSecurityDeleteRole "r1" None;
        XPackSecurityDeleteRole "r2" (Some (ElasticError 500 "refused"))]).
Proof.
  pose proof (DeleteUser_roles_then_user policyStore connected twoRolesUser ∅) as H1.
  pose proof (DeleteUser_roles_then_user refusingStore connected twoRolesUser ()) as H2.
  split; reflexivity.
Defined.

(** ** Client bootstrap *)

Lemma size_1_singleton {A} (m : gmap string A) :
  size m = 1%nat → ∃ k v, m = {[ k := v ]}.
Proof.
  intros Hsize. rewrite <- length_map_to_list in Hsize.
  destruct (map_to_list m) as [| [k v] [| ? ?]] eqn:E; simpl in Hsize; try discriminate.
  exists k, v. rewrite <- (list_to_map_to_list m), E. reflexivity.
Qed.

Lemma string_of_list_byte_empty (v : list Byte.byte) :
  String.eqb (string_of_list_byte v) "" = true ↔ v = [].
Proof.
  destruct v; simpl; split; intros H; try reflexivity; discriminate.
Qed.

(** What [getClientCredentials] does once the admin secret was read. *)
Lemma getClientCredentials_of_secret env external secret :
  clientGet env (ElasticsearchAdminUserSecret env) = inr secret →
  (size (Data secret) ≠ 1%nat →
   getClientCredentials env external
   = inl (Errorf "secret does not contain only 1 entry for credentials"))
  ∧ ∀ k v, Data secret = {[ k := v ]} →
      (k = ""%string ∨ v = [] →
       getClientCredentials env external = inl (Errorf "username or password is empty"))
      ∧ (k ≠ ""%string → v ≠ [] →
         getClientCredentials env external
         = match getESRoots env (caSecretName env external) with
           | inl err => inl err
           | inr roots => inr (k, string_of_list_byte v, roots)
           end).
Proof.
  intros Hget. unfold getClientCredentials. rewrite Hget. split.
  - intros Hsize.
    destruct (Z.eqb_spec (Z.of_nat (size (Data secret))) 1) as [E |]; [lia | reflexivity].
  - intros k v ->. rewrite map_size_singleton, map_to_list_singleton. simpl. split.
    + intros [-> | ->]; [reflexivity |]. simpl. now rewrite orb_true_r.
    + intros Hk Hv.
      destruct (String.eqb_spec k ""); [contradiction |].
      destruct (String.eqb (string_of_list_byte v) "") eqn:E.
      * apply string_of_list_byte_empty in E. contradiction.
      * reflexivity.
Qed.

(** C6. With the root certificates resolvable, credential resolution
    depends on the admin secret alone. When the secret cannot be read,
    that error is returned. When it was read, resolution fails exactly
    when the secret does not hold exactly one entry or the key or the
    value of its entry is empty, and it then fails with one of the two
    credential errors. In every failing case [NewElasticClient] returns a
    nil client without a construction attempt. Otherwise the single key is
    returned as the username and the single value as the password. *)
Theorem getClientCredentials_single_entry
    (env : Env) (external : bool) (roots : CertPool) (endpoint : string) :
  getESRoots env (caSecretName env external) = inr roots →
  (∀ err, clientGet env (ElasticsearchAdminUserSecret env) = inl err →
     getClientCredentials env external = inl err
     ∧ NewElasticClient env endpoint external = (None, Some err, []))
  ∧ ∀ secret, clientGet env (ElasticsearchAdminUserSecret env) = inr secret →
      ((∃ e, getClientCredentials env external = inl e) ↔ credentialsMalformed secret)
      ∧ (credentialsMalformed secret →
         ∃ e, credentialsError e
              ∧ getClientCredentials env external = inl e
              ∧ NewElasticClient env endpoint external = (None, Some e, []))
      ∧ (¬ credentialsMalformed secret →
         ∃ k v, Data secret = {[ k := v ]}
                ∧ k ≠ ""%string ∧ v ≠ []
                ∧ getClientCredentials env external = inr (k, string_of_list_byte v, roots)).
Proof.
  intros Hroots. split.
  { intros err Hget.
    assert (E : getClientCredentials env external = inl err).
    { unfold getClientCredentials. now rewrite Hget. }
    split; [exact E |]. unfold NewElasticClient. now rewrite E. }
  intros secret Hget.
  destruct (getClientCredentials_of_secret env external secret Hget) as [Hsize Hone].
  assert (Hbad : credentialsMalformed secret →
            ∃ e, credentialsError e ∧ getClientCredentials env external = inl e).
  { intros [Hs | (k & v & Hd & Hkv)].
    - eexists. split; [left; reflexivity | now apply Hsize].
    - eexists. split; [right; reflexivity | now apply (Hone k v Hd)]. }
  assert (Hgood : ¬ credentialsMalformed secret →
            ∃ k v, Data secret = {[ k := v ]} ∧ k ≠ ""%string ∧ v ≠ []
                   ∧ getClientCredentials env external = inr (k, string_of_list_byte v, roots)).
  { intros Hn.
    destruct (decide (size (Data secret) = 1%nat)) as [Hs | Hs]; [| destruct Hn; now left].
    destruct (size_1_singleton _ Hs) as (k & v & Hd).
    assert (Hk : k ≠ ""%string).
    { intros ->. apply Hn. right. exists ""%string, v. auto. }
    assert (Hv : v ≠ []).
    { intros ->. apply Hn. right. exists k, []. auto. }
    exists k, v. repeat (split; [assumption |]).
    destruct (Hone k v Hd) as [_ Hok]. now rewrite Hok, ?Hroots. }
  split; [split | split].
  - intros [e He].
    destruct (decide (size (Data secret) = 1%nat)) as [Hs | Hs]; [| now left].
    destruct (size_1_singleton _ Hs) as (k & v & Hd).
    destruct (Hone k v Hd) as [_ Hok].
    destruct (decide (k = ""%string)) as [-> | Hk]; [right; exists ""%string, v; auto |].
    destruct v as [| b v]; [right; exists k, []; auto |].
    rewrite Hok, Hroots in He; [discriminate | exact Hk | discriminate].
  - intros Hm. destruct (Hbad Hm) as (e & _ & He). now exists e.
  - intros Hm. destruct (Hbad Hm) as (e & Hce & He). exists e.
    split; [exact Hce | split; [exact He |]].
    unfold NewElasticClient. now rewrite He.
  - exact Hgood.
Qed.

Lemma getClientCredentials_single_entry_witness :
  (∃ k v, goodAdmin = {[ k := v ]} ∧ k ≠ ""%string ∧ v ≠ []
          ∧ getClientCredentials unreachableEnv false
            = inr (k, string_of_list_byte v, {| poolPEM := bytes "PEM" |}))
  ∧ (∃ e, credentialsError e
          ∧ getClientCredentials (sampleEnv ∅ (λ _, None)) false = inl e
          ∧ NewElasticClient (sampleEnv ∅ (λ _, None)) "https://es:9200" false
            = (None, Some e, [])).
Proof.
  split.
  - destruct (proj2 (getClientCredentials_single_entry unreachableEnv false
                {| poolPEM := bytes "PEM" |} "https://es:9200" eq_refl)
                {| Data := goodAdmin |} eq_refl) as (_ & _ & Hgood).
    apply Hgood. simpl. intros [Hs | (k & v & Hd & Hkv)].
    + apply Hs. reflexivity.
    + apply (f_equal (λ m, m !! "elastic"%string)) in Hd.
      rewrite lookup_singleton in Hd. unfold goodAdmin in Hd. simpl in Hd.
      rewrite lookup_singleton_eq in Hd.
      destruct (decide (k = "elastic"%string)) as [-> | Hne].
      * destruct Hkv as [Hk | ->]; [discriminate Hk | discriminate Hd].
      * discriminate Hd.
  - destruct (proj2 (getClientCredentials_single_entry (sampleEnv ∅ (λ _, None)) false
                {| poolPEM := bytes "PEM" |} "https://es:9200" eq_refl)
                {| Data := ∅ |} eq_refl) as (_ & Hbad & _).
    apply Hbad. left. simpl. rewrite map_size_empty. discriminate.
Defined.

Lemma connectLoop_all_fail env opts d (errs : nat → error) :
  ∀ (n i : nat) c0 e0,
    (∀ j, (i ≤ j < i + n)%nat → NewClient env j opts = Some (errs j)) →
    connectLoop env opts d n i c0 e0
    = (match n with O => c0 | S _ => None end,
       match n with O => e0 | S n' => Some (errs (i + n')%nat) end,
       flat_map (failedAttempt opts d errs) (seq i n)).
Proof.
  induction n as [| n IH]; intros i c0 e0 Hfail; [reflexivity |].
  simpl. rewrite (Hfail i) by lia.
  rewrite (IH (S i) None (Some (errs i))) by (intros j Hj; apply Hfail; lia).
  destruct n as [| n']; simpl.
  - now rewrite Nat.add_0_r.
  - now rewrite Nat.add_succ_r.
Qed.

Lemma connectLoop_first_success env opts d (errs : nat → error) :
  ∀ (k n i : nat) c0 e0,
    (k < n)%nat →
    (∀ j, (i ≤ j < i + k)%nat → NewClient env j opts = Some (errs j)) →
    NewClient env (i + k)%nat opts = None →
    connectLoop env opts d n i c0 e0
    = (Some {| options := opts |}, None,
       flat_map (failedAttempt opts d errs) (seq i k) ++ [EvNewClient (i + k)%nat opts None]).
Proof.
  induction k as [| k IH]; intros n i c0 e0 Hlt Hfail Hok.
  - destruct n as [| n]; [lia |]. simpl. rewrite Nat.add_0_r in Hok. rewrite Hok.
    now rewrite Nat.add_0_r.
  - destruct n as [| n]; [lia |]. simpl. rewrite (Hfail i) by lia.
    rewrite (IH n (S i) None (Some (errs i))).
    + now rewrite Nat.add_succ_r.
    + lia.
    + intros j Hj. apply Hfail. lia.
    + now rewrite Nat.add_succ_r in Hok.
Qed.

Lemma attempts_failed opts d errs (l : list nat) :
  attempts (flat_map (failedAttempt opts d errs) l) = length l.
Proof.
  unfold attempts. induction l as [| i l IH]; simpl; [reflexivity | now rewrite IH].
Qed.

(** [NewElasticClient] once the credentials and certificates were read. *)
Lemma NewElasticClient_loop env endpoint external user password root certs :
  getClientCredentials env external = inr (user, password, root) →
  certificatesLoaded env external certs →
  NewElasticClient env endpoint external
  = match connectLoop env (builtOptions endpoint user password root certs) ms500
            ElasticConnRetries 0 None None with
    | (esCli, err, t) => (Some {| client := esCli |}, err, t)
    end.
Proof.
  intros Hcred Hcerts. unfold NewElasticClient. rewrite Hcred.
  unfold certificatesLoaded in Hcerts. destruct external.
  - destruct Hcerts as (certSecret & cert & -> & -> & ->). reflexivity.
  - subst certs. reflexivity.
Qed.

(** C7. Once the credentials and certificates were read: if the first ten
    construction attempts all fail, [NewElasticClient] makes exactly those
    ten attempts, sleeps 500 ms after each, and returns the error of the
    tenth; if attempt [k] is the first to succeed, it makes the [k] failing
    attempts (each followed by a 500 ms sleep) and that one, and returns
    its client with no error. *)
Theorem NewElasticClient_bounded_retry
    (env : Env) (endpoint : string) (external : bool)
    (user password : string) (root : CertPool) (certs : list Certificate)
    (errs : nat → error) :
  getClientCredentials env external = inr (user, password, root) →
  certificatesLoaded env external certs →
  let opts := builtOptions endpoint user password root certs in
  ((∀ i, (i < 10)%nat → NewClient env i opts = Some (errs i)) →
   ∃ t, NewElasticClient env endpoint external = (Some {| client := None |}, Some (errs 9%nat), t)
        ∧ t = flat_map (failedAttempt opts ms500 errs) (seq 0 10)
        ∧ attempts t = 10%nat)
  ∧ (∀ k, (k < 10)%nat →
       (∀ i, (i < k)%nat → NewClient env i opts = Some (errs i)) →
       NewClient env k opts = None →
       ∃ t, NewElasticClient env endpoint external
            = (Some {| client := Some {| options := opts |} |}, None, t)
            ∧ t = flat_map (failedAttempt opts ms500 errs) (seq 0 k)
                  ++ [EvNewClient k opts None]
            ∧ attempts t = S k).
Proof.
  intros Hcred Hcerts opts.
  pose proof (NewElasticClient_loop env endpoint external user password root certs
                Hcred Hcerts) as Hloop.
  fold opts in Hloop. split.
  - intros Hfail. eexists. split; [| split; [reflexivity |]].
    + rewrite Hloop.
      rewrite (connectLoop_all_fail env opts ms500 errs ElasticConnRetries 0 None None)
        by (intros j Hj; apply Hfail; unfold ElasticConnRetries in Hj; lia).
      reflexivity.
    + rewrite attempts_failed. reflexivity.
  - intros k Hk Hfail Hok. eexists. split; [| split; [reflexivity |]].
    + rewrite Hloop.
      rewrite (connectLoop_first_success env opts ms500 errs k ElasticConnRetries 0 None None);
        [reflexivity | exact Hk | intros j Hj; apply Hfail; lia | exact Hok].
    + unfold attempts. rewrite List.filter_app, length_app.
      fold (attempts (flat_map (failedAttempt opts ms500 errs) (seq 0 k))).
      rewrite attempts_failed, length_seq. simpl. lia.
Qed.

Lemma NewElasticClient_bounded_retry_witness :
  (∃ t, NewElasticClient unreachableEnv "https://es:9200" false
        = (Some {| client := None |}, Some (OtherError "9"), t)
        ∧ t = flat_map (failedAttempt sampleOptions ms500 attemptError) (seq 0 10)
        ∧ attempts t = 10%nat)
  ∧ (∃ t, NewElasticClient flakyEnv "https://es:9200" false
          = (Some {| client := Some {| options := sampleOptions |} |}, None, t)
          ∧ t = flat_map (failedAttempt sampleOptions ms500 attemptError) (seq 0 3)
                ++ [EvNewClient 3 sampleOptions None]
          ∧ attempts t = 4%nat).
Proof.
  split.
  - apply (NewElasticClient_bounded_retry unreachableEnv "https://es:9200" false
             "elastic" "pw" {| poolPEM := bytes "PEM" |} [] attemptError
             eq_refl eq_refl).
    intros i Hi. reflexivity.
  - apply (proj2 (NewElasticClient_bounded_retry flakyEnv "https://es:9200" false
             "elastic" "pw" {| poolPEM := bytes "PEM" |} [] attemptError
             eq_refl eq_refl) 3%nat).
    + lia.
    + intros i Hi. simpl. destruct (Nat.ltb_spec i 3); [reflexivity | lia].
    + reflexivity.
Defined.

(** C10. When all ten construction attempts fail, the [ElasticClient] that
    [NewElasticClient] returns next to the error is not nil: it is an
    [esClient] whose inner client is nil. It cannot be used: reconciling
    policies through it panics at the first fetch, and so does deleting a
    named user without roles. *)
Theorem NewElasticClient_failure_returns_wrapper
    (env : Env) (endpoint : string) (external : bool)
    (user password : string) (root : CertPool) (certs : list Certificate)
    (errs : nat → error) :
  getClientCredentials env external = inr (user, password, root) →
  certificatesLoaded env external certs →
  (∀ i, (i < 10)%nat →
     NewClient env i (builtOptions endpoint user password root certs) = Some (errs i)) →
  ∃ (es : esClient),
    (NewElasticClient env endpoint external).1 = (Some es, Some (errs 9%nat))
    ∧ (NewElasticClient env endpoint external).1.1 ≠ None
    ∧ client es = None
    ∧ (∀ (St : Type) (R : Remote St) indexName pd rest (st : St),
         createOrUpdatePolicies R es ((indexName, pd) :: rest) st = (Panicked, st, []))
    ∧ (∀ (St : Type) (R : Remote St) username pw (st : St),
         username ≠ ""%string →
         DeleteUser R es {| Username := username; Password := pw; Roles := nil_slice |} st
         = (Panicked, st, [])).
Proof.
  intros Hcred Hcerts Hfail.
  rewrite (NewElasticClient_loop env endpoint external user password root certs Hcred Hcerts).
  rewrite (connectLoop_all_fail env _ ms500 errs ElasticConnRetries 0 None None)
    by (intros j Hj; apply Hfail; unfold ElasticConnRetries in Hj; lia).
  exists {| client := None |}. simpl.
  split; [reflexivity | split; [discriminate | split; [reflexivity | split]]].
  - intros St R indexName pd rest st. reflexivity.
  - intros St R username pw st _. reflexivity.
Qed.

Lemma NewElasticClient_failure_returns_wrapper_witness :
  ∃ es, (NewElasticClient unreachableEnv "https://es:9200" false).1
        = (Some es, Some (OtherError "9"))
        ∧ (NewElasticClient unreachableEnv "https://es:9200" false).1.1 ≠ None
        ∧ client es = None
        ∧ (∀ (St : Type) (R : Remote St) indexName pd rest (st : St),
             createOrUpdatePolicies R es ((indexName, pd) :: rest) st = (Panicked, st, []))
        ∧ (∀ (St : Type) (R : Remote St) username pw (st : St),
             username ≠ ""%string →
             DeleteUser R es {| Username := username; Password := pw; Roles := nil_slice |} st
             = (Panicked, st, [])).
Proof.
  apply (NewElasticClient_failure_returns_wrapper unreachableEnv "https://es:9200" false
           "elastic" "pw" {| poolPEM := bytes "PEM" |} [] attemptError eq_refl eq_refl).
  intros i Hi. reflexivity.
Defined.

(** ** Diff and apply *)

Lemma length_append (s1 s2 : string) :
  String.length (s1 +:+ s2) = (String.length s1 + String.length s2)%nat.
Proof.
  induction s1 as [| c s1 IH]; [reflexivity |].
  change (S (String.length (s1 +:+ s2)) = S (String.length s1 + String.length s2)).
  now rewrite IH.
Qed.

Lemma append_inj_suffix (suffix s1 s2 : string) :
  s1 +:+ suffix = s2 +:+ suffix → s1 = s2.
Proof.
  revert s2. induction s1 as [| c1 s1 IH]; intros [| c2 s2] H.
  - reflexivity.
  - apply (f_equal String.length) in H. rewrite !length_append in H. simpl in H. lia.
  - apply (f_equal String.length) in H. rewrite !length_append in H. simpl in H. lia.
  - change (String c1 (s1 +:+ suffix) = String c2 (s2 +:+ suffix)) in H.
    injection H as -> H. f_equal. now apply IH.
Qed.

Lemma policyNameOf_inj (n1 n2 : string) : policyNameOf n1 = policyNameOf n2 → n1 = n2.
Proof. apply append_inj_suffix. Qed.

Lemma fieldsDiffer_false pd a s d ro :
  fieldsDiffer pd a s d ro = false
  ↔ (a, s, d, ro) = (rolloverAge pd, rolloverSize pd, deleteAge pd, readOnlyAfterRollover pd).
Proof.
  unfold fieldsDiffer.
  destruct (String.eqb_spec a (rolloverAge pd)), (String.eqb_spec s (rolloverSize pd)),
    (String.eqb_spec d (deleteAge pd)), (Bool.eqb_spec ro (readOnlyAfterRollover pd));
    simpl; split; intros H; try discriminate; try congruence.
Qed.

Lemma observedEqual_not_callsForApply pd name res :
  observedEqual pd name res → ¬ callsForApply pd name res.
Proof.
  intros (m & lc & -> & Hm & Hx) (lc' & a & s & d & ro & Hm' & Hx' & Hdiff).
  rewrite Hm in Hm'. injection Hm' as <-. rewrite Hx in Hx'. injection Hx' as <- <- <- <-.
  assert (fieldsDiffer pd (rolloverAge pd) (rolloverSize pd) (deleteAge pd)
            (readOnlyAfterRollover pd) = false) by now apply fieldsDiffer_false.
  congruence.
Qed.

Section ReconcileFacts.
Context {St : Type} (R : Remote St).

(** One turn of the loop, spelled out. *)
Lemma createOrUpdatePolicies_cons es indexName pd rest st :
  createOrUpdatePolicies R es ((indexName, pd) :: rest) st
  = let policyName := policyNameOf indexName in
    match client es with
    | None => (Panicked, st, [])
    | Some _ =>
        let '(res, st1) := getLifecycle R policyName st in
        let get := XPackIlmGetLifecycle policyName res in
        let apply :=
          let '(e, st2) := putLifecycle R policyName (policy pd) st1 in
          (Returned e, st2, [get; XPackIlmPutLifecycle policyName (policy pd) e]) in
        match res with
        | inl err => if IsNotFound err then apply else (Returned (Some err), st1, [get])
        | inr m =>
            match m !! policyName with
            | None => (Panicked, st1, [get])
            | Some lifecycle =>
                match extractPolicyDetails (elastic.Policy lifecycle) with
                | inl err => (Returned (Some err), st1, [get])
                | inr (a, s, d, ro) =>
                    if fieldsDiffer pd a s d ro then apply
                    else
                      let '(r, st2, t) := createOrUpdatePolicies R es rest st1 in
                      (r, st2, get :: t)
                end
            end
        end
    end.
Proof.
  simpl. unfold bind, applyILMPolicy, perform, ret, policyNameOf, fieldsDiffer.
  destruct (client es); [| reflexivity].
  destruct (getLifecycle R (indexName +:+ "_policy") st) as [[err | m] st1].
  - destruct (IsNotFound err); [| reflexivity].
    destruct (putLifecycle R _ (policy pd) st1) as [e st2]. reflexivity.
  - destruct (m !! (indexName +:+ "_policy")) as [lc |]; [| reflexivity].
    destruct (extractPolicyDetails (elastic.Policy lc)) as [err | [[[a s] d] ro]];
      [reflexivity |].
    destruct (_ || _).
    + destruct (putLifecycle R _ (policy pd) st1) as [e st2]. reflexivity.
    + destruct (createOrUpdatePolicies R es rest st1) as [[r st2] t]. reflexivity.
Qed.

(** Every apply answers a fetch of the same policy, made in the same run,
    that reported it missing or different; and it sends the desired
    document of that category. *)
Lemma apply_follows_fetch es listPolicy st policyName body e :
  XPackIlmPutLifecycle policyName body e ∈ (createOrUpdatePolicies R es listPolicy st).2 →
  ∃ indexName pd res,
    (indexName, pd) ∈ listPolicy
    ∧ policyName = policyNameOf indexName
    ∧ body = policy pd
    ∧ XPackIlmGetLifecycle policyName res ∈ (createOrUpdatePolicies R es listPolicy st).2
    ∧ callsForApply pd policyName res.
Proof.
  revert st. induction listPolicy as [| [indexName pd] rest IH]; intros st.
  - simpl. intros H. now apply elem_of_nil in H.
  - rewrite createOrUpdatePolicies_cons. cbv zeta.
    destruct (client es); [| intros H; now apply elem_of_nil in H].
    destruct (getLifecycle R (policyNameOf indexName) st) as [res st1].
    assert (Happly :
      ∀ (x : outcome (option error) * St * list Event),
        callsForApply pd (policyNameOf indexName) res →
        x = (let '(e0, st2) := putLifecycle R (policyNameOf indexName) (policy pd) st1 in
             (Returned e0, st2,
              [XPackIlmGetLifecycle (policyNameOf indexName) res;
               XPackIlmPutLifecycle (policyNameOf indexName) (policy pd) e0])) →
        XPackIlmPutLifecycle policyName body e ∈ x.2 →
        ∃ indexName0 pd0 res0,
          (indexName0, pd0) ∈ (indexName, pd) :: rest
          ∧ policyName = policyNameOf indexName0 ∧ body = policy pd0
          ∧ XPackIlmGetLifecycle policyName res0 ∈ x.2
          ∧ callsForApply pd0 policyName res0).
    { intros x Hcall ->.
      destruct (putLifecycle R (policyNameOf indexName) (policy pd) st1) as [e0 st2].
      simpl. intros H.
      apply elem_of_cons in H as [H | H]; [discriminate |].
      apply list_elem_of_singleton in H. injection H as -> -> ->.
      exists indexName, pd, res.
      split; [apply list_elem_of_here | repeat split; [apply list_elem_of_here | exact Hcall]]. }
    assert (Hget : ∀ ev, XPackIlmPutLifecycle policyName body e ∈ [ev] →
              ev = XPackIlmGetLifecycle (policyNameOf indexName) res → False).
    { intros ev H ->. apply list_elem_of_singleton in H. discriminate. }
    destruct res as [err | m].
    + destruct (IsNotFound err) eqn:Hnf.
      * now apply Happly.
      * simpl. intros H. exfalso. eapply Hget; [exact H | reflexivity].
    + destruct (m !! policyNameOf indexName) as [lc |] eqn:Hm.
      2:{ simpl. intros H. exfalso. eapply Hget; [exact H | reflexivity]. }
      destruct (extractPolicyDetails (elastic.Policy lc)) as [err | [[[a s] d] ro]] eqn:Hx.
      { simpl. intros H. exfalso. eapply Hget; [exact H | reflexivity]. }
      destruct (fieldsDiffer pd a s d ro) eqn:Hdiff.
      * apply Happly; [| reflexivity]. simpl. exists lc, a, s, d, ro. auto.
      * specialize (IH st1).
        destruct (createOrUpdatePolicies R es rest st1) as [[r st2] t]. simpl in *.
        intros H. apply elem_of_cons in H as [H | H]; [discriminate |].
        destruct (IH H) as (n0 & pd0 & res0 & Hin & Hname & Hbody & Hg & Hcall).
        exists n0, pd0, res0.
        split; [now apply list_elem_of_further |].
        repeat split; try assumption. now apply list_elem_of_further.
Qed.

(** A run issues at most one apply, and nothing after it. *)
Lemma at_most_one_apply es listPolicy st :
  let t := (createOrUpdatePolicies R es listPolicy st).2 in
  (Forall (λ ev, isPutLifecycle ev = false) t)
  ∨ (∃ t' policyName body e,
       t = t' ++ [XPackIlmPutLifecycle policyName body e]
       ∧ Forall (λ ev, isPutLifecycle ev = false) t').
Proof.
  revert st. induction listPolicy as [| [indexName pd] rest IH]; intros st.
  - left. constructor.
  - rewrite createOrUpdatePolicies_cons. cbv zeta.
    destruct (client es); [| left; constructor].
    destruct (getLifecycle R (policyNameOf indexName) st) as [res st1].
    assert (Happly :
      ∀ (x : outcome (option error) * St * list Event),
        x = (let '(e0, st2) := putLifecycle R (policyNameOf indexName) (policy pd) st1 in
             (Returned e0, st2,
              [XPackIlmGetLifecycle (policyNameOf indexName) res;
               XPackIlmPutLifecycle (policyNameOf indexName) (policy pd) e0])) →
        (Forall (λ ev, isPutLifecycle ev = false) x.2)
        ∨ (∃ t' policyName body e,
             x.2 = t' ++ [XPackIlmPutLifecycle policyName body e]
             ∧ Forall (λ ev, isPutLifecycle ev = false) t')).
    { intros x ->.
      destruct (putLifecycle R (policyNameOf indexName) (policy pd) st1) as [e0 st2].
      right. exists [XPackIlmGetLifecycle (policyNameOf indexName) res].
      eexists _, _, _. split; [reflexivity | repeat constructor]. }
    destruct res as [err | m].
    + destruct (IsNotFound err); [now apply Happly | left; repeat constructor].
    + destruct (m !! policyNameOf indexName) as [lc |]; [| left; repeat constructor].
      destruct (extractPolicyDetails (elastic.Policy lc)) as [err | [[[a s] d] ro]];
        [left; repeat constructor |].
      destruct (fieldsDiffer pd a s d ro); [now apply Happly |].
      specialize (IH st1).
      destruct (createOrUpdatePolicies R es rest st1) as [[r st2] t]. simpl in *.
      destruct IH as [IH | (t' & name & body & e & -> & IH)].
      * left. now constructor.
      * right. exists (XPackIlmGetLifecycle (policyNameOf indexName) (inr m) :: t').
        eexists _, _, _. split; [reflexivity | now constructor].
Qed.

End ReconcileFacts.

(** In the store that keeps what it is sent, every fetch of a run is
    answered from the state the run started in. *)
Lemma policyStore_fetch_initial es listPolicy st policyName res :
  XPackIlmGetLifecycle policyName res ∈ (createOrUpdatePolicies policyStore es listPolicy st).2 →
  res = (getLifecycle policyStore policyName st).1.
Proof.
  revert st. induction listPolicy as [| [indexName pd] rest IH]; intros st.
  - simpl. intros H. now apply elem_of_nil in H.
  - rewrite createOrUpdatePolicies_cons. cbv zeta.
    destruct (client es); [| intros H; now apply elem_of_nil in H].
    destruct (getLifecycle policyStore (policyNameOf indexName) st) as [res0 st1] eqn:Hget.
    assert (Hst : st1 = st).
    { simpl in Hget. destruct (st !! policyNameOf indexName); now injection Hget. }
    subst st1.
    assert (Hhead : ∀ t, XPackIlmGetLifecycle policyName res
                         ∈ XPackIlmGetLifecycle (policyNameOf indexName) res0 :: t →
              (∀ ev, ev ∈ t → XPackIlmGetLifecycle policyName res = ev →
                     res = (getLifecycle policyStore policyName st).1) →
              res = (getLifecycle policyStore policyName st).1).
    { intros t H Ht. apply elem_of_cons in H as [H | H].
      - injection H as -> ->. now rewrite Hget.
      - now apply (Ht _ H). }
    assert (Happly :
      ∀ (x : outcome (option error) * gmap string (gmap string json) * list Event),
        x = (let '(e0, st2) :=
               putLifecycle policyStore (policyNameOf indexName) (policy pd) st in
             (Returned e0, st2,
              [XPackIlmGetLifecycle (policyNameOf indexName) res0;
               XPackIlmPutLifecycle (policyNameOf indexName) (policy pd) e0])) →
        XPackIlmGetLifecycle policyName res ∈ x.2 →
        res = (getLifecycle policyStore policyName st).1).
    { intros x ->. simpl. intros H. apply (Hhead _ H).
      intros ev Hev <-. apply list_elem_of_singleton in Hev. discriminate. }
    assert (Hone : XPackIlmGetLifecycle policyName res
                   ∈ [XPackIlmGetLifecycle (policyNameOf indexName) res0] →
                   res = (getLifecycle policyStore policyName st).1).
    { intros H. apply (Hhead _ H). intros ev Hev. now apply elem_of_nil in Hev. }
    destruct res0 as [err | m].
    + destruct (IsNotFound err); [now apply Happly | exact Hone].
    + destruct (m !! policyNameOf indexName) as [lc |]; [| exact Hone].
      destruct (extractPolicyDetails (elastic.Policy lc)) as [err | [[[a s0] d] ro]];
        [exact Hone |].
      destruct (fieldsDiffer pd a s0 d ro); [now apply Happly |].
      specialize (IH st).
      destruct (createOrUpdatePolicies policyStore es rest st) as [[r st2] t]. simpl in *.
      intros H. apply (Hhead _ H). intros ev Hev <-. now apply IH.
Qed.

(** C2. Whatever the store and the order in which the categories are
    visited, a category whose fetch in this run showed the four comparison
    fields equal to the desired ones gets no apply call in this run. Hence,
    in a store that keeps what it is sent, once the synthesized document of
    a category has been applied, reconciling the same desired policy again
    issues no apply call for it. *)
Theorem createOrUpdatePolicies_no_write_when_equal
    (listPolicy : gmap string policyDetail) (order : list (string * policyDetail))
    (indexName : string) (pd : policyDetail) :
  order ≡ₚ map_to_list listPolicy →
  listPolicy !! indexName = Some pd →
  (∀ (St : Type) (R : Remote St) (es : esClient) (st : St),
     let t := (createOrUpdatePolicies R es order st).2 in
     (∀ res, XPackIlmGetLifecycle (policyNameOf indexName) res ∈ t →
             observedEqual pd (policyNameOf indexName) res) →
     ∀ body e, XPackIlmPutLifecycle (policyNameOf indexName) body e ∉ t)
  ∧ (∀ total p q retention ro es st st1 t1,
       pd = buildILMPolicy total p q retention ro →
       applyILMPolicy policyStore es indexName (policy pd) st = (Returned None, st1, t1) →
       t1 = [XPackIlmPutLifecycle (policyNameOf indexName) (policy pd) None]
       ∧ ∀ body e,
           XPackIlmPutLifecycle (policyNameOf indexName) body e
           ∉ (createOrUpdatePolicies policyStore es order st1).2).
Proof.
  intros Hperm Hpd.
  assert (Hgeneral :
    ∀ (St : Type) (R : Remote St) (es : esClient) (st : St),
      (∀ res, XPackIlmGetLifecycle (policyNameOf indexName) res
              ∈ (createOrUpdatePolicies R es order st).2 →
              observedEqual pd (policyNameOf indexName) res) →
      ∀ body e, XPackIlmPutLifecycle (policyNameOf indexName) body e
                ∉ (createOrUpdatePolicies R es order st).2).
  { intros St R es st Hobs body e Hput.
    destruct (apply_follows_fetch R es order st _ _ _ Hput)
      as (n0 & pd0 & res0 & Hin & Hname & _ & Hget & Hcall).
    apply policyNameOf_inj in Hname. subst n0.
    rewrite Hperm in Hin. apply elem_of_map_to_list in Hin.
    rewrite Hpd in Hin. injection Hin as <-.
    exact (observedEqual_not_callsForApply _ _ _ (Hobs _ Hget) Hcall). }
  split; [exact Hgeneral |].
  intros total p q retention ro es st st1 t1 -> Happly.
  unfold applyILMPolicy, perform in Happly. fold (policyNameOf indexName) in Happly.
  destruct (client es); [| discriminate].
  simpl in Happly. injection Happly as <- <-.
  split; [reflexivity |].
  apply Hgeneral. intros res Hget.
  apply policyStore_fetch_initial in Hget. subst res. simpl.
  rewrite lookup_insert_eq.
  eexists _, _. split; [reflexivity |]. split; [apply lookup_singleton_eq |].
  simpl. apply extract_build.
Qed.

Lemma createOrUpdatePolicies_no_write_when_equal_witness :
  (XPackIlmPutLifecycle "tigera_secure_ee_flows_policy" (policy flowsPolicy) None
   ∉ (createOrUpdatePolicies policyStore connected (map_to_list twoPolicies)
        {[ "tigera_secure_ee_flows_policy"%string := policy flowsPolicy ]}).2)
  ∧ List.filter isPutLifecycle
      (createOrUpdatePolicies policyStore connected (map_to_list twoPolicies)
         {[ "tigera_secure_ee_flows_policy"%string := policy flowsPolicy ]}).2
    = [XPackIlmPutLifecycle "tigera_secure_ee_dns_policy" (policy dnsPolicy) None].
Proof.
  split; [| reflexivity].
  apply (proj2 (createOrUpdatePolicies_no_write_when_equal twoPolicies
                  (map_to_list twoPolicies) "tigera_secure_ee_flows" flowsPolicy
                  (reflexivity _) eq_refl)
           GiB100 (decimal 7 10) (decimal 85 100) 8 true connected ∅ _ _ eq_refl eq_refl).
Defined.

(** What the loop does at the first category that is missing in the store:
    it applies that category and returns; the categories after it in the
    iteration order are neither fetched nor applied. *)
Lemma createOrUpdatePolicies_missing_first {St : Type} (R : Remote St)
    c indexName pd rest st err st1 e st2 :
  getLifecycle R (policyNameOf indexName) st = (inl err, st1) →
  IsNotFound err = true →
  putLifecycle R (policyNameOf indexName) (policy pd) st1 = (e, st2) →
  createOrUpdatePolicies R {| client := Some c |} ((indexName, pd) :: rest) st
  = (Returned e, st2,
     [XPackIlmGetLifecycle (policyNameOf indexName) (inl err);
      XPackIlmPutLifecycle (policyNameOf indexName) (policy pd) e]).
Proof.
  intros Hget Hnf Hput. rewrite createOrUpdatePolicies_cons. cbv zeta. simpl.
  now rewrite Hget, Hnf, Hput.
Qed.

(** C1, evaluated. On a store that holds neither policy, reconciling the
    two categories flows and dns (in either order) fetches the first,
    applies it and returns without error: the second category is not
    fetched and stays without a policy. On the ten policies of a default
    LogStorage a run on an empty store likewise issues a single apply and
    leaves nine categories without a policy. *)
Theorem createOrUpdatePolicies_returns_after_first_apply :
  createOrUpdatePolicies policyStore connected
    [("tigera_secure_ee_flows"%string, flowsPolicy); ("tigera_secure_ee_dns"%string, dnsPolicy)] ∅
  = (Returned None,
     {[ "tigera_secure_ee_flows_policy"%string := policy flowsPolicy ]},
     [XPackIlmGetLifecycle "tigera_secure_ee_flows_policy" (inl notFound);
      XPackIlmPutLifecycle "tigera_secure_ee_flows_policy" (policy flowsPolicy) None])
  ∧ createOrUpdatePolicies policyStore connected
      [("tigera_secure_ee_dns"%string, dnsPolicy); ("tigera_secure_ee_flows"%string, flowsPolicy)] ∅
    = (Returned None,
       {[ "tigera_secure_ee_dns_policy"%string := policy dnsPolicy ]},
       [XPackIlmGetLifecycle "tigera_secure_ee_dns_policy" (inl notFound);
        XPackIlmPutLifecycle "tigera_secure_ee_dns_policy" (policy dnsPolicy) None])
  ∧ (let '(r, st, t) :=
       SetILMPolicies policyStore map_to_list 10 connected defaultLogStorage ∅ in
     r = Returned None
     ∧ length (List.filter isPutLifecycle t) = 1%nat
     ∧ length t = 2%nat
     ∧ size st = 1%nat
     ∧ match listILMPolicies 10 defaultLogStorage with
       | Returned policyList => size policyList = 10%nat
       | Panicked => False
       end).
Proof.
  split; [| split].
  - eapply (createOrUpdatePolicies_missing_first policyStore); reflexivity.
  - eapply (createOrUpdatePolicies_missing_first policyStore); reflexivity.
  - vm_compute. repeat split; reflexivity.
Qed.

(** * Further properties *)

(** ** Names *)

Lemma append_assoc (s1 s2 s3 : string) : (s1 +:+ s2) +:+ s3 = s1 +:+ (s2 +:+ s3).
Proof.
  induction s1 as [| c s1 IH]; [reflexivity |].
  change (String c ((s1 +:+ s2) +:+ s3) = String c (s1 +:+ (s2 +:+ s3))).
  now rewrite IH.
Qed.

Lemma append_nonempty_r (s1 s2 : string) : s2 ≠ ""%string → s1 +:+ s2 ≠ ""%string.
Proof.
  intros Hs2 H. apply (f_equal String.length) in H. rewrite length_append in H.
  destruct s2; [contradiction | simpl in H; lia].
Qed.

(** X1. [formatName] joins its three parts with underscores and keeps the
    trailing one for an empty tenant; it is never empty; for a fixed
    cluster and tenant it maps different names to different results, so
    the two built-in users never collide; but cluster and tenant are not
    recovered from the result. *)
Theorem formatName_facts :
  (∀ name clusterID, formatName name clusterID "" = name +:+ "_" +:+ clusterID +:+ "_")
  ∧ (∀ name clusterID tenantID, formatName name clusterID tenantID ≠ ""%string)
  ∧ (∀ n1 n2 clusterID tenantID,
       formatName n1 clusterID tenantID = formatName n2 clusterID tenantID → n1 = n2)
  ∧ (∀ clusterID tenantID,
       Username (LinseedUser clusterID tenantID) ≠ Username (DashboardUser clusterID tenantID))
  ∧ Username (LinseedUser "a_b" "") = Username (LinseedUser "a" "b_").
Proof.
  split; [| split; [| split; [| split]]].
  - reflexivity.
  - intros name clusterID tenantID. unfold formatName.
    apply append_nonempty_r. discriminate.
  - intros n1 n2 clusterID tenantID. unfold formatName. apply append_inj_suffix.
  - intros clusterID tenantID H. simpl in H. unfold formatName in H.
    apply append_inj_suffix in H. discriminate.
  - reflexivity.
Qed.

(** X2. With an empty tenant [indexPattern] is prefix, dot, cluster,
    suffix; with a tenant it is the pattern without tenant of the cluster
    name extended in front by the tenant and a dot. Its length is the sum
    of the lengths of the parts and of the dots. *)
Theorem indexPattern_tenant (prefix cluster suffix tenant : string) :
  indexPattern prefix cluster suffix "" = prefix +:+ "." +:+ cluster +:+ suffix
  ∧ (tenant ≠ ""%string →
     indexPattern prefix cluster suffix tenant
     = indexPattern prefix (tenant +:+ "." +:+ cluster) suffix "")
  ∧ String.length (indexPattern prefix cluster suffix tenant)
    = (String.length prefix + 1 + String.length cluster + String.length suffix
       + (if String.eqb tenant "" then 0 else String.length tenant + 1))%nat.
Proof.
  split; [reflexivity | split].
  - intros Ht. unfold indexPattern.
    destruct (String.eqb_spec tenant ""); [contradiction |]. simpl negb. cbv iota.
    change (negb (String.eqb "" "")) with false. cbv iota.
    now rewrite !append_assoc.
  - unfold indexPattern. destruct (String.eqb tenant ""); simpl negb; cbv iota;
      rewrite !length_append; simpl; lia.
Qed.

Lemma indexPattern_tenant_witness :
  indexPattern "tigera_secure_ee_*" "*" ".*" "t1" = "tigera_secure_ee_*.t1.*.*"%string
  ∧ indexPattern "tigera_secure_ee_*" "t1.*" ".*" "" = "tigera_secure_ee_*.t1.*.*"%string.
Proof.
  split; [| reflexivity].
  rewrite (proj1 (proj2 (indexPattern_tenant "tigera_secure_ee_*" "*" ".*" "t1")))
    by discriminate.
  reflexivity.
Defined.

(** ** Storage budget planner, continued *)

(** X3. The rollover age is one hour exactly for a retention of zero days
    or less; otherwise it is a whole number [n] of days with
    [1 <= n <= retention], and from four days of retention on four
    rollover ages fit into the retention, with less than four days to
    spare. *)
Theorem calculateRolloverAge_window (retention : Z) :
  (retention ≤ 0 ∧ calculateRolloverAge retention = "1h"%string)
  ∨ (∃ n, calculateRolloverAge retention = (fmt_d n +:+ "d")%string
          ∧ 1 ≤ n ≤ retention
          ∧ (4 ≤ retention → 4 * n ≤ retention < 4 * n + 4)).
Proof.
  unfold calculateRolloverAge, ElasticsearchRetentionFactor.
  destruct (Z.leb_spec retention 0); [left; auto |].
  right. destruct (Z.ltb_spec retention 4).
  - exists 1. split; [reflexivity | lia].
  - exists (retention / 4). rewrite Z.quot_div_nonneg by lia.
    split; [reflexivity |].
    pose proof (Z.div_mod retention 4 ltac:(lia)).
    pose proof (Z.mod_pos_bound retention 4 ltac:(lia)). lia.
Qed.

Lemma calculateRolloverAge_nonempty (retention : Z) :
  calculateRolloverAge retention ≠ ""%string.
Proof.
  unfold calculateRolloverAge.
  destruct (retention <=? 0); [discriminate |].
  destruct (retention <? ElasticsearchRetentionFactor); [discriminate |].
  apply append_nonempty_r. discriminate.
Qed.

Lemma fmul_zero_r (x : float64) (s : bool) :
  below 63 x → ∃ s', fmul x (S754_zero s) = S754_zero s'.
Proof.
  destruct x as [sx | sx | | sx mx ex]; simpl; try easy; eauto.
Qed.

Lemma fmul_zero_l (s : bool) (y : float64) :
  below 0 y → ∃ s', fmul (S754_zero s) y = S754_zero s'.
Proof.
  destruct y as [sy | sy | | sy my ey]; simpl; try easy; eauto.
Qed.

(** X4. A share of zero leaves no room: for a positive total and a valid
    second share in [0,1] the rollover size is [0b], whichever of the two
    shares is the zero one. *)
Theorem calculateRolloverSize_zero_share (total : Z) (q : float64) (s : bool) :
  0 < total ≤ max_int64 →
  valid_binary prec emax q = true → fleb zero q = true → fleb q one = true →
  calculateRolloverSize total (S754_zero s) q = "0b"%string
  ∧ calculateRolloverSize total q (S754_zero s) = "0b"%string.
Proof.
  intros Ht Hv H0 H1.
  pose proof (float64_of_int_below total Ht) as HF.
  pose proof (unit_interval_below q Hv H0 H1) as Hq.
  rewrite !calculateRolloverSize_capped. split.
  - destruct (fmul_zero_r _ s HF) as [s1 ->].
    destruct (fmul_zero_l s1 q Hq) as [s2 ->].
    rewrite four_eq. reflexivity.
  - assert (Hb : below 63 (fmul (float64_of_int total) q))
      by (apply fmul_below; [lia | assumption | assumption]).
    destruct (fmul_zero_r _ s Hb) as [s1 ->].
    rewrite four_eq. reflexivity.
Qed.

Lemma calculateRolloverSize_zero_share_witness :
  calculateRolloverSize GiB100 zero (decimal 85 100) = "0b"%string
  ∧ calculateRolloverSize GiB100 (decimal 7 10) zero = "0b"%string.
Proof.
  apply (calculateRolloverSize_zero_share GiB100 (decimal 85 100) false);
    [vm_compute; split; congruence | vm_compute; congruence ..].
Defined.

(** ** Policy documents, continued *)


(** X6. An observed policy without a document, or with an empty one,
    decodes without error to empty fields, and so calls for an apply of
    every synthesized policy. *)
Theorem empty_observed_policy_is_replaced
    (total : Z) (p q : float64) (retention : Z) (ro : bool)
    (policyName : string) (m : gmap string elastic.XPackIlmGetLifecycleResponse)
    (lifecycle : elastic.XPackIlmGetLifecycleResponse) :
  m !! policyName = Some lifecycle →
  elastic.Policy lifecycle = None ∨ elastic.Policy lifecycle = Some ∅ →
  extractPolicyDetails (elastic.Policy lifecycle) = inr (""%string, ""%string, ""%string, false)
  ∧ callsForApply (buildILMPolicy total p q retention ro) policyName (inr m).
Proof.
  intros Hm Hempty.
  assert (Hx : extractPolicyDetails (elastic.Policy lifecycle)
               = inr (""%string, ""%string, ""%string, false)).
  { destruct Hempty as [-> | ->]; reflexivity. }
  split; [exact Hx |].
  exists lifecycle, ""%string, ""%string, ""%string, false.
  split; [exact Hm | split; [exact Hx |]].
  unfold fieldsDiffer.
  destruct (String.eqb_spec "" (rolloverAge (buildILMPolicy total p q retention ro)))
    as [E |]; [| reflexivity].
  exfalso. symmetry in E. revert E. apply calculateRolloverAge_nonempty.
Qed.

Lemma empty_observed_policy_is_replaced_witness :
  callsForApply flowsPolicy "tigera_secure_ee_flows_policy"
    (inr {[ "tigera_secure_ee_flows_policy"%string := {| elastic.Policy := None |} ]}).
Proof.
  apply (empty_observed_policy_is_replaced GiB100 (decimal 7 10) (decimal 85 100) 8 true
           "tigera_secure_ee_flows_policy" _ {| elastic.Policy := None |}).
  - apply lookup_singleton_eq.
  - now left.
Defined.

(** ** Users and roles, continued *)

Lemma rolesToCreate_foldl (roles : list Role) (acc : slice Role) :
  elems (foldl (λ rolesToCreate role,
                  match Definition_ role with
                  | Some _ => append rolesToCreate role
                  | None => rolesToCreate
                  end) acc roles)
  = elems acc ++ definedRoles roles.
Proof.
  revert acc. induction roles as [| role roles IH]; intros acc; simpl.
  - now rewrite app_nil_r.
  - rewrite IH. unfold hasDefinition. destruct (Definition_ role); simpl.
    + now rewrite <- app_assoc.
    + reflexivity.
Qed.

Section CreateFacts.
Context {St : Type} (R : Remote St).

Lemma CreateRoles_trace es roles st :
  (∃ st', CreateRoles R es roles st = (Returned None, st', rolePuts roles))
  ∨ (∃ k role e st',
       roles !! k = Some role
       ∧ CreateRoles R es roles st
         = (Returned (Some e), st', rolePuts (take k roles) ++ failedRolePut role e))
  ∨ (∃ st' k, client es = None
       ∧ CreateRoles R es roles st = (Panicked, st', rolePuts (take k roles))).
Proof.
  revert st. induction roles as [| role roles IH]; intros st.
  - left. now exists st.
  - simpl. unfold createRole, bind, perform, ret, failedRolePut.
    destruct (String.eqb (Name role) "") eqn:Hname; simpl.
    { right; left. exists 0%nat, role, (Errorf "can't create a role with an empty name"), st.
      simpl. rewrite Hname. done. }
    destruct (client es) eqn:Hc; simpl.
    2:{ right; right. exists st, 0%nat. done. }
    destruct (putRole R (Name role) (Definition_ role) st) as [[e |] st1] eqn:Hput; simpl.
    { right; left. exists 0%nat, role, e, st1. simpl. rewrite Hname. done. }
    destruct (IH st1) as [(st' & ->) | [(k & role' & e & st' & Hk & ->) | (st' & k & Hc' & _)]].
    + left. now exists st'.
    + right; left. exists (S k), role', e, st'. done.
    + congruence.
Qed.

End CreateFacts.

(** X7. [CreateUser] upserts the roles that have a definition, in order,
    skipping the others, and stops at the first one that fails (a role with
    an empty name fails without a request), returning that error without
    upserting the user. Only after every such role was acknowledged does it
    upsert the user, once and last, with the password and the names of all
    the roles of the user, those without a definition included. *)
Theorem CreateUser_roles_then_user {St : Type} (R : Remote St)
    (es : esClient) (user : User) (st : St) :
  let created := definedRoles (elems (Roles user)) in
  let '(r, _, t) := CreateUser R es user st in
  (∃ err, r = Returned err
      ∧ t = rolePuts created ++ [XPackSecurityPutUser (Username user) (userBody user) err])
  ∨ (∃ k role e, created !! k = Some role
      ∧ r = Returned (Some e)
      ∧ t = rolePuts (take k created) ++ failedRolePut role e
      ∧ Forall (λ ev, isPutUser ev = false) t)
  ∨ (client es = None ∧ r = Panicked ∧ Forall (λ ev, isPutUser ev = false) t).
Proof.
  intros created. unfold CreateUser, bind.
  set (rolesToCreate := foldl _ nil_slice _).
  assert (Hel : elems rolesToCreate = created).
  { unfold rolesToCreate. now rewrite rolesToCreate_foldl. }
  assert (Hif : (if len rolesToCreate >? 0 then CreateRoles R es (elems rolesToCreate)
                 else ret None) st = CreateRoles R es created st).
  { rewrite Hel. unfold len. rewrite Hel.
    destruct created as [| role l]; [reflexivity |].
    destruct (Z.gtb_spec (Z.of_nat (length (role :: l))) 0) as [| Hle];
      [reflexivity | simpl in Hle; lia]. }
  rewrite Hif.
  assert (Hrp : ∀ l, Forall (λ ev, isPutUser ev = false) (rolePuts l)).
  { intros l. unfold rolePuts. apply Forall_fmap. now apply Forall_true. }
  assert (Hbody : obj [("password", JStr (Password user));
                       ("roles", stringsValue (RoleNames user))] = userBody user).
  { unfold userBody, RoleNames. now rewrite RoleNames_foldl. }
  rewrite Hbody.
  destruct (CreateRoles_trace R es created st)
    as [(st' & ->) | [(k & role & e & st' & Hk & ->) | (st' & k & Hc & ->)]].
  - unfold perform, ret. destruct (client es) eqn:Hc; simpl.
    + destruct (putUser R (Username user) (userBody user) st') as [[e |] st2]; simpl;
        left; eexists; rewrite ?app_nil_r; done.
    + right; right. rewrite ?app_nil_r. done.
  - simpl. rewrite ?app_nil_r. right; left. exists k, role, e.
    repeat split; try done.
    apply Forall_app. split; [apply Hrp |].
    unfold failedRolePut. destruct (String.eqb (Name role) ""); repeat constructor.
  - right; right. done.
Qed.

Lemma CreateUser_single_role {St : Type} (R : Remote St) (c : Client)
    (name pw : string) (def : RoleDefinition) (st : St) :
  String.eqb name "" = false →
  CreateUser R {| client := Some c |}
    {| Username := name; Password := pw;
       Roles := mk_slice [{| Name := name; Definition_ := Some def |}] |} st
  = match putRole R name (Some def) st with
    | (Some e, st1) =>
        (Returned (Some e), st1, [XPackSecurityPutRole name (Some def) (Some e)])
    | (None, st1) =>
        let body := obj [("password", JStr pw); ("roles", JArr [JStr name])] in
        match putUser R name body st1 with
        | (err, st2) =>
            (Returned err, st2,
             [XPackSecurityPutRole name (Some def) None;
              XPackSecurityPutUser name body err])
        end
    end.
Proof.
  intros Hne. unfold CreateUser, bind. simpl. unfold createRole, bind, perform, ret. simpl.
  rewrite Hne.
  destruct (putRole R name (Some def) st) as [[e |] st1]; [reflexivity |].
  simpl. destruct (putUser R name _ st1) as [[e |] st2]; reflexivity.
Qed.

(** X8. Creating one of the built-in users issues at most two requests:
    the upsert of its one role, which is named like the user and always has
    a definition, and then, if that was acknowledged, the upsert of the
    user with that role name and an empty password. Its role name is never
    empty, so the role is always sent. *)
Theorem CreateUser_builtin {St : Type} (R : Remote St)
    (c : Client) (clusterID tenant : string) (linseed : bool) (st : St) :
  let user := if linseed then LinseedUser clusterID tenant
              else DashboardUser clusterID tenant in
  let name := formatName (if linseed then ElasticsearchUserNameLinseed
                          else ElasticsearchUserNameDashboardInstaller) clusterID tenant in
  Username user = name
  ∧ RoleNames user = mk_slice [name]
  ∧ ∃ def, (Definition_ <$> elems (Roles user)) = [Some def]
      ∧ CreateUser R {| client := Some c |} user st
        = match putRole R name (Some def) st with
          | (Some e, st1) =>
              (Returned (Some e), st1, [XPackSecurityPutRole name (Some def) (Some e)])
          | (None, st1) =>
              let body := obj [("password", JStr ""); ("roles", JArr [JStr name])] in
              match putUser R name body st1 with
              | (err, st2) =>
                  (Returned err, st2,
                   [XPackSecurityPutRole name (Some def) None;
                    XPackSecurityPutUser name body err])
              end
          end.
Proof.
  cbv zeta.
  assert (Hne : ∀ base, String.eqb (formatName base clusterID tenant) "" = false).
  { intros base. apply String.eqb_neq. unfold formatName.
    apply append_nonempty_r. discriminate. }
  destruct linseed; (split; [reflexivity | split; [reflexivity |]]);
    eexists; (split; [reflexivity |]); apply CreateUser_single_role, Hne.
Qed.

Lemma GetUsers_user_foldl (name pw : string) (roleNames : list string) (roles : slice Role) :
  foldl (λ user roleName,
           {| Username := Username user;
              Password := Password user;
              Roles := append (Roles user) {| Name := roleName; Definition_ := None |} |})
        {| Username := name; Password := pw; Roles := roles |} roleNames
  = {| Username := name; Password := pw;
       Roles := match roleNames with
                | [] => roles
                | _ => mk_slice (elems roles
                                 ++ ((λ n, {| Name := n; Definition_ := None |}) <$> roleNames))
                end |}.
Proof.
  revert roles. induction roleNames as [| n l IH]; intros roles; [reflexivity |].
  simpl foldl. rewrite IH. f_equal. destruct l as [| n' l]; [reflexivity |].
  simpl. now rewrite <- app_assoc.
Qed.

Lemma append_foldl {A B} (f : B → A) (l : list B) (acc : list A) :
  foldl (λ s x, append s (f x)) (mk_slice acc) l = mk_slice (acc ++ (f <$> l)).
Proof.
  revert acc. induction l as [| x l IH]; intros acc; simpl.
  - now rewrite app_nil_r.
  - unfold append at 2. simpl. rewrite IH. now rewrite <- app_assoc.
Qed.

(** X9. [GetUsers] answers a failed request with an empty, non-nil list
    and the error. Otherwise it lists every user of the answer exactly
    once: each carries its name, no password, and its roles by name only,
    without definitions, in the order of the answer. *)
Theorem GetUsers_lists {St : Type} (c : Client)
    (doGetUser : St → (error + gmap string XPackSecurityUser) * St)
    (iter : gmap string XPackSecurityUser → list (string * XPackSecurityUser)) (st : St) :
  (∀ m, iter m ≡ₚ map_to_list m) →
  match doGetUser st with
  | (inl err, st1) =>
      GetUsers {| client := Some c |} doGetUser iter st
      = (Returned (mk_slice [], Some err), st1)
  | (inr usersResponse, st1) =>
      ∃ users,
        GetUsers {| client := Some c |} doGetUser iter st
        = (Returned (mk_slice users, None), st1)
        ∧ (Username <$> users) ≡ₚ (map_to_list usersResponse).*1
        ∧ NoDup (Username <$> users)
        ∧ ∀ u, u ∈ users →
            Password u = ""%string
            ∧ Forall (λ role, Definition_ role = None) (elems (Roles u))
            ∧ ∃ data, usersResponse !! Username u = Some data
                      ∧ elems (RoleNames u) = elems (user_Roles data)
  end.
Proof.
  intros Hiter. unfold GetUsers. simpl.
  destruct (doGetUser st) as [[err | usersResponse] st1]; [reflexivity |].
  rewrite append_foldl. simpl.
  eexists. split; [reflexivity |].
  set (mk := λ entry : string * XPackSecurityUser, foldl _ _ (elems (user_Roles entry.2))).
  assert (Hname : ∀ entry, Username (mk entry) = entry.1).
  { intros entry. unfold mk. now rewrite GetUsers_user_foldl. }
  assert (Hnames : Username <$> (mk <$> iter usersResponse) = (iter usersResponse).*1).
  { rewrite <- list_fmap_compose. apply list_fmap_ext. intros i entry _. apply Hname. }
  split; [now rewrite Hnames, Hiter |].
  split; [rewrite Hnames, Hiter; apply NoDup_fst_map_to_list |].
  intros u Hu. apply list_elem_of_fmap in Hu as (entry & -> & Hin).
  rewrite Hiter in Hin. destruct entry as [name data].
  apply elem_of_map_to_list in Hin.
  unfold mk. simpl. rewrite GetUsers_user_foldl. simpl.
  split; [reflexivity |]. split.
  - destruct (elems (user_Roles data)) as [| n l]; [constructor |].
    simpl. constructor; [reflexivity |]. apply Forall_fmap. now apply Forall_true.
  - exists data. split; [exact Hin |].
    unfold RoleNames. rewrite RoleNames_foldl. simpl.
    destruct (elems (user_Roles data)) as [| n l]; [reflexivity |].
    simpl. f_equal. rewrite <- list_fmap_compose. now rewrite list_fmap_id.
Qed.

Lemma GetUsers_lists_witness :
  ∃ users,
    GetUsers connected (λ st : unit, (inr usersTable, st)) map_to_list ()
    = (Returned (mk_slice users, None), ())
    ∧ (Username <$> users) ≡ₚ (map_to_list usersTable).*1
    ∧ NoDup (Username <$> users)
    ∧ ∀ u, u ∈ users →
        Password u = ""%string
        ∧ Forall (λ role, Definition_ role = None) (elems (Roles u))
        ∧ ∃ data, usersTable !! Username u = Some data
                  ∧ elems (RoleNames u) = elems (user_Roles data).
Proof.
  apply (GetUsers_lists someClient (λ st : unit, (inr usersTable, st)) map_to_list ()).
  intros m. reflexivity.
Defined.

(** ** Reading secrets *)

Lemma ElasticsearchSecrets_loop_spec (env : Env) (names : list string) (acc : slice Secret) :
  match ElasticsearchSecrets_loop env names acc with
  | inr s =>
      ∃ secrets, Forall2 (λ n sec, clientGet env n = inr sec) names secrets
                 ∧ elems s = elems acc ++ secrets
                 ∧ (names = [] → s = acc)
                 ∧ (names ≠ [] → is_nil s = false)
  | inl err =>
      ∃ l1 n l2, names = l1 ++ n :: l2
                 ∧ Forall (λ m, ∃ sec, clientGet env m = inr sec) l1
                 ∧ clientGet env n = inl err
  end.
Proof.
  revert acc. induction names as [| n names IH]; intros acc; simpl.
  - exists []. rewrite app_nil_r. repeat split; [constructor | done].
  - destruct (clientGet env n) as [err | sec] eqn:Hget.
    + exists [], n, names. repeat split; [constructor | exact Hget].
    + specialize (IH (append acc sec)).
      destruct (ElasticsearchSecrets_loop env names (append acc sec)) as [err | s].
      * destruct IH as (l1 & n' & l2 & -> & Hl1 & Hn').
        exists (n :: l1), n', l2. repeat split; [| exact Hn'].
        constructor; [now exists sec | exact Hl1].
      * destruct IH as (secrets & Hall & Hel & Hnil & Hnn).
        exists (sec :: secrets). split; [now constructor |].
        split; [rewrite Hel; simpl; now rewrite <- app_assoc |].
        split; [discriminate |]. intros _.
        destruct names as [| n2 names]; [rewrite Hnil by reflexivity; reflexivity |].
        now apply Hnn.
Qed.

(** X10. [ElasticsearchSecrets] returns the secrets of all the names, in
    the order of the names, when every one can be read, and a nil list when
    no name is given; otherwise it returns the error of the first name that
    cannot be read, whatever comes after it. *)
Theorem ElasticsearchSecrets_all_or_first_error (env : Env) (names : list string) :
  (∀ s, ElasticsearchSecrets env names = inr s →
     Forall2 (λ n sec, clientGet env n = inr sec) names (elems s)
     ∧ (is_nil s = true ↔ names = []))
  ∧ (∀ l1 n l2 err,
       names = l1 ++ n :: l2 →
       Forall (λ m, ∃ sec, clientGet env m = inr sec) l1 →
       clientGet env n = inl err →
       ElasticsearchSecrets env names = inl err)
  ∧ (Forall (λ m, ∃ sec, clientGet env m = inr sec) names →
     ∃ s, ElasticsearchSecrets env names = inr s).
Proof.
  unfold ElasticsearchSecrets.
  pose proof (ElasticsearchSecrets_loop_spec env names nil_slice) as Hspec.
  split; [| split].
  - intros s Hs. rewrite Hs in Hspec.
    destruct Hspec as (secrets & Hall & Hel & Hnil & Hnn). simpl in Hel. subst secrets.
    split; [exact Hall |]. split.
    + intros Hs'. destruct names; [reflexivity |].
      rewrite Hnn in Hs' by discriminate. discriminate.
    + intros ->. now rewrite Hnil.
  - intros l1 n l2 err -> Hl1 Hn.
    destruct (ElasticsearchSecrets_loop env (l1 ++ n :: l2) nil_slice) as [err' | s].
    + destruct Hspec as (l1' & n' & l2' & Heq & Hl1' & Hn').
      assert (Hfirst : ∀ (a b : list string) x y c d e1,
                a ++ x :: c = b ++ y :: d →
                Forall (λ m, ∃ sec, clientGet env m = inr sec) a →
                Forall (λ m, ∃ sec, clientGet env m = inr sec) b →
                clientGet env x = inl e1 → clientGet env y = inl err' → e1 = err').
      { induction a as [| a0 a IHa]; intros [| b0 b] x y c0 d e1 E Ha Hb Hx Hy; simpl in E.
        - injection E as -> _. congruence.
        - injection E as -> _. inversion Hb as [| ? ? [sec Hsec] _]. congruence.
        - injection E as -> _. inversion Ha as [| ? ? [sec Hsec] _]. congruence.
        - injection E as -> E. inversion Ha; inversion Hb; subst. eauto. }
      f_equal. symmetry. eapply Hfirst; eauto.
    + destruct Hspec as (secrets & Hall & _).
      apply Forall2_app_inv_l in Hall as (s1 & s2 & _ & Hall & _).
      inversion Hall as [| ? sec ? ? Hsec _]; subst. congruence.
  - intros Hall.
    destruct (ElasticsearchSecrets_loop env names nil_slice) as [err | s]; [| now exists s].
    destruct Hspec as (l1 & n & l2 & -> & _ & Hn).
    apply Forall_app in Hall as [_ Hall]. inversion Hall as [| ? ? [sec Hsec] _]. congruence.
Qed.

Lemma ElasticsearchSecrets_all_or_first_error_witness :
  ElasticsearchSecrets unreachableEnv
    ["tigera-secure-es-admin-user"; "absent"; "tigera-secure-internal-elasticsearch-cert"]%string
  = inl (OtherError "not found")
  ∧ ∃ s, ElasticsearchSecrets unreachableEnv
           ["tigera-secure-internal-elasticsearch-cert"; "tigera-secure-es-admin-user"]%string
         = inr s.
Proof.
  split.
  - apply (proj1 (proj2 (ElasticsearchSecrets_all_or_first_error unreachableEnv _))
             ["tigera-secure-es-admin-user"%string] "absent"%string
             ["tigera-secure-internal-elasticsearch-cert"%string]).
    + reflexivity.
    + repeat constructor. eexists. reflexivity.
    + reflexivity.
  - apply (proj2 (proj2 (ElasticsearchSecrets_all_or_first_error unreachableEnv _))).
    repeat constructor; eexists; reflexivity.
Defined.

(** ** Root certificates *)

(** X11. When [getESRoots] succeeds, the pool it returns holds a
    certificate that the parser accepted, and that certificate is the CA of
    the installation's certificate management when that is configured, and
    the [tls.crt] entry of the named secret otherwise. With certificate
    management configured the secret is not consulted: the result is the
    same for every secret name. *)
Theorem getESRoots_sound (env : Env) (secretName : string) :
  (∀ pool, getESRoots env secretName = inr pool →
     AppendCertsFromPEM env (poolPEM pool) = true
     ∧ ∃ instance, clientGetInstallation env = inr instance
         ∧ match Spec_CertificateManagement instance with
           | Some cm => poolPEM pool = CACert cm
           | None =>
               ∃ secret, clientGet env secretName = inr secret
                         ∧ Data secret !! "tls.crt"%string = Some (poolPEM pool)
           end)
  ∧ (∀ instance cm otherName,
       clientGetInstallation env = inr instance →
       Spec_CertificateManagement instance = Some cm →
       getESRoots env secretName = getESRoots env otherName).
Proof.
  split.
  - intros pool. unfold getESRoots.
    destruct (clientGetInstallation env) as [err | instance]; [discriminate |].
    destruct (Spec_CertificateManagement instance) as [cm |] eqn:Hcm.
    + destruct (AppendCertsFromPEM env (CACert cm)) eqn:Hp; [| discriminate].
      intros [= <-]. simpl. split; [exact Hp |].
      exists instance. now rewrite Hcm.
    + destruct (clientGet env secretName) as [err | secret]; [discriminate |].
      destruct (Data secret !! "tls.crt"%string) as [caPEM |] eqn:Hcrt; [| discriminate].
      destruct (AppendCertsFromPEM env caPEM) eqn:Hp; [| discriminate].
      intros [= <-]. simpl. split; [exact Hp |].
      exists instance. split; [reflexivity |]. rewrite Hcm. now exists secret.
  - intros instance cm otherName Hinst Hcm. unfold getESRoots. now rewrite Hinst, Hcm.
Qed.

Lemma getESRoots_sound_witness :
  AppendCertsFromPEM unreachableEnv (bytes "PEM") = true
  ∧ ∃ instance, clientGetInstallation unreachableEnv = inr instance
      ∧ match Spec_CertificateManagement instance with
        | Some cm => bytes "PEM" = CACert cm
        | None =>
            ∃ secret,
              clientGet unreachableEnv "tigera-secure-internal-elasticsearch-cert" = inr secret
              ∧ Data secret !! "tls.crt"%string = Some (bytes "PEM")
        end.
Proof.
  apply (proj1 (getESRoots_sound unreachableEnv "tigera-secure-internal-elasticsearch-cert")
           {| poolPEM := bytes "PEM" |}).
  reflexivity.
Defined.

(** ** Client bootstrap, continued *)

Lemma first_success (f : nat → option error) (n i : nat) :
  (∀ j, (i ≤ j < i + n)%nat → f j ≠ None)
  ∨ (∃ k, (k < n)%nat ∧ (∀ j, (i ≤ j < i + k)%nat → f j ≠ None) ∧ f (i + k)%nat = None).
Proof.
  revert i. induction n as [| n IH]; intros i; [left; intros j Hj; lia |].
  destruct (f i) as [e |] eqn:Hi.
  - destruct (IH (S i)) as [Hall | (k & Hk & Hbefore & Hat)].
    + left. intros j Hj. destruct (decide (j = i)) as [-> | Hne]; [congruence |].
      apply Hall. lia.
    + right. exists (S k). split; [lia |]. split.
      * intros j Hj. destruct (decide (j = i)) as [-> | Hne]; [congruence |].
        apply Hbefore. lia.
      * now rewrite Nat.add_succ_r.
  - right. exists 0%nat. split; [lia |]. split; [intros j Hj; lia |].
    now rewrite Nat.add_0_r.
Qed.

Lemma attemptErr_fails env opts j :
  NewClient env j opts ≠ None → NewClient env j opts = Some (attemptErr env opts j).
Proof. unfold attemptErr. destruct (NewClient env j opts); [reflexivity | contradiction]. Qed.

(** What [NewElasticClient] returns and does, in every surrounding. *)
Lemma NewElasticClient_cases (env : Env) (endpoint : string) (external : bool) :
  (∃ e, NewElasticClient env endpoint external = (None, Some e, []))
  ∨ (∃ user password root certs,
       getClientCredentials env external = inr (user, password, root)
       ∧ certificatesLoaded env external certs
       ∧ let opts := builtOptions endpoint user password root certs in
         let failed := failedAttempt opts ms500 (attemptErr env opts) in
         ∃ k, (∀ i, (i < k)%nat → NewClient env i opts ≠ None)
           ∧ ((k = 10%nat
               ∧ NewElasticClient env endpoint external
                 = (Some {| client := None |}, Some (attemptErr env opts 9%nat),
                    flat_map failed (seq 0 k)))
              ∨ ((k < 10)%nat
                 ∧ NewElasticClient env endpoint external
                   = (Some {| client := Some {| options := opts |} |}, None,
                      flat_map failed (seq 0 k) ++ [EvNewClient k opts None])))).
Proof.
  destruct (getClientCredentials env external) as [e | [[user password] root]] eqn:Hcred.
  { left. exists e. unfold NewElasticClient. now rewrite Hcred. }
  assert (Hcerts : (∃ e, NewElasticClient env endpoint external = (None, Some e, []))
                   ∨ ∃ certs, certificatesLoaded env external certs).
  { unfold NewElasticClient, certificatesLoaded. rewrite Hcred. destruct external.
    - destruct (GetSecret env (ExternalCertsSecret env)) as [e | [certSecret |]] eqn:Hs;
        [left; eauto | | left; eauto].
      destruct (X509KeyPair env _ _) as [e | cert] eqn:Hk; [left; eauto |].
      right. exists [cert], certSecret, cert. auto.
    - right. now exists []. }
  destruct Hcerts as [Hfail | [certs Hcerts]]; [now left |].
  right. exists user, password, root, certs. split; [reflexivity | split; [exact Hcerts |]].
  cbv zeta.
  rewrite (NewElasticClient_loop env endpoint external user password root certs Hcred Hcerts).
  set (opts := builtOptions endpoint user password root certs).
  destruct (first_success (λ j, NewClient env j opts) ElasticConnRetries 0)
    as [Hall | (k & Hk & Hbefore & Hat)].
  - exists 10%nat. split; [intros i Hi; apply Hall; unfold ElasticConnRetries; lia |].
    left. split; [reflexivity |].
    rewrite (connectLoop_all_fail env opts ms500 (attemptErr env opts)
               ElasticConnRetries 0 None None)
      by (intros j Hj; apply attemptErr_fails, Hall, Hj).
    reflexivity.
  - exists k. split; [intros i Hi; apply Hbefore; lia |].
    right. split; [exact Hk |].
    rewrite (connectLoop_first_success env opts ms500 (attemptErr env opts)
               k ElasticConnRetries 0 None None);
      [reflexivity | exact Hk | intros j Hj; apply attemptErr_fails, Hbefore, Hj | exact Hat].
Qed.

Lemma sleeps_failed opts d errs (l : list nat) :
  length (List.filter isSleep (flat_map (failedAttempt opts d errs) l)) = length l.
Proof. induction l as [| i l IH]; simpl; [reflexivity | now rewrite IH]. Qed.

(** X12. Whatever the surroundings answer, [NewElasticClient] never returns
    a nil client together with a nil error; a nil client comes with no
    construction attempt; a non-nil client comes with a nil error exactly
    when its inner client is not nil; there are at most ten construction
    attempts, and one sleep for each attempt that failed. *)
Theorem NewElasticClient_result_invariants
    (env : Env) (endpoint : string) (external : bool) :
  let '(c, err, t) := NewElasticClient env endpoint external in
  (c = None → err ≠ None ∧ t = [])
  ∧ (∀ es, c = Some es → (err = None ↔ client es ≠ None))
  ∧ (attempts t ≤ 10)%nat
  ∧ length (List.filter isSleep t)
    = (attempts t - (if err is None then 1 else 0))%nat.
Proof.
  destruct (NewElasticClient_cases env endpoint external)
    as [[e ->] | (user & password & root & certs & _ & _ & k & _
                  & [[-> ->] | (Hk & ->)])].
  - split; [intros _; split; [discriminate | reflexivity] |].
    split; [intros es Hes; discriminate Hes |]. unfold attempts. simpl. split; lia.
  - split; [discriminate |]. split.
    + intros es [= <-]. simpl. split; [discriminate | intros H; now destruct H].
    + rewrite attempts_failed, sleeps_failed, length_seq. split; lia.
  - split; [discriminate |]. split.
    + intros es [= <-]. simpl. split; [discriminate | reflexivity].
    + unfold attempts. rewrite !List.filter_app, !length_app.
      fold (attempts (flat_map (failedAttempt
              (builtOptions endpoint user password root certs) ms500
              (attemptErr env (builtOptions endpoint user password root certs)))
              (seq 0 k))).
      rewrite attempts_failed, sleeps_failed, length_seq. simpl. split; lia.
Qed.

(** X13. Every construction attempt of [NewElasticClient] is made with the
    same options: the given endpoint, keep-alive disabled, sniffing and
    health checks off, the credentials and the root certificates that
    [getClientCredentials] resolved, and one client certificate for
    external access, none otherwise. The attempts are numbered from zero in
    order, each one but a successful last one has failed and is followed by
    a sleep of 500 ms, and after a success nothing more is done. *)
Theorem NewElasticClient_attempt_options
    (env : Env) (endpoint : string) (external : bool) :
  let t := (NewElasticClient env endpoint external).2 in
  t = []
  ∨ ∃ user password root certs,
      getClientCredentials env external = inr (user, password, root)
      ∧ length certs = (if external then 1 else 0)%nat
      ∧ let opts :=
          {| SetURL := endpoint;
             SetHttpClient :=
               {| DisableKeepAlives := true;
                  TLSClientConfig := {| Certificates := certs; RootCAs := Some root |} |};
             SetSniff := false;
             SetHealthcheck := false;
             SetBasicAuth := (user, password) |} in
        ∃ k final, (k ≤ 10)%nat
          ∧ t = flat_map (failedAttempt opts ms500 (attemptErr env opts)) (seq 0 k) ++ final
          ∧ (final = [] ∨ ((k < 10)%nat ∧ final = [EvNewClient k opts None]))
          ∧ ∀ i, (i < k)%nat → NewClient env i opts ≠ None.
Proof.
  cbv zeta.
  destruct (NewElasticClient_cases env endpoint external)
    as [[e ->] | (user & password & root & certs & Hcred & Hcerts & k & Hfails & Hrun)];
    [now left |].
  right. exists user, password, root, certs. split; [exact Hcred |]. split.
  { unfold certificatesLoaded in Hcerts. destruct external.
    - destruct Hcerts as (? & ? & _ & _ & ->). reflexivity.
    - now subst certs. }
  fold (builtOptions endpoint user password root certs).
  destruct Hrun as [[-> ->] | [Hk ->]].
  - exists 10%nat, []. rewrite app_nil_r. simpl snd.
    split; [lia |]. split; [reflexivity |]. split; [now left | exact Hfails].
  - exists k, [EvNewClient k (builtOptions endpoint user password root certs) None].
    simpl snd. split; [lia |]. split; [reflexivity |]. split; [now right | exact Hfails].
Qed.

(** ** Reconciling policies, continued *)

Section ReconcileRuns.
Context {St : Type} (R : Remote St).

(** X14. A run that returns without error and without having applied
    anything has fetched every category once, in iteration order, and found
    each one equal to the desired policy in the four comparison fields. *)
Theorem quiet_run_means_in_sync es listPolicy st r st' t :
  createOrUpdatePolicies R es listPolicy st = (r, st', t) →
  r = Returned None →
  Forall (λ ev, isPutLifecycle ev = false) t →
  Forall2 (λ entry ev,
             ∃ res, ev = XPackIlmGetLifecycle (policyNameOf entry.1) res
                    ∧ observedEqual entry.2 (policyNameOf entry.1) res)
          listPolicy t.
Proof.
  revert st t. induction listPolicy as [| [indexName pd] rest IH]; intros st t.
  - simpl. unfold ret. intros [= _ _ <-] _ _. constructor.
  - rewrite createOrUpdatePolicies_cons. cbv zeta.
    destruct (client es); [| intros [= <- _ _] Hr; discriminate Hr].
    destruct (getLifecycle R (policyNameOf indexName) st) as [res st1].
    assert (Happly :
      (let '(e0, st2) := putLifecycle R (policyNameOf indexName) (policy pd) st1 in
       (Returned e0, st2,
        [XPackIlmGetLifecycle (policyNameOf indexName) res;
         XPackIlmPutLifecycle (policyNameOf indexName) (policy pd) e0])) = (r, st', t) →
      Forall (λ ev, isPutLifecycle ev = false) t → False).
    { destruct (putLifecycle R (policyNameOf indexName) (policy pd) st1) as [e0 st2].
      intros [= _ _ <-] Hno. inversion Hno as [| ? ? _ Hno']. inversion Hno' as [| ? ? Hput _].
      discriminate Hput. }
    destruct res as [err | m].
    + destruct (IsNotFound err).
      * intros H _ Hno. destruct (Happly H Hno).
      * intros [= <- _ _] Hr. discriminate Hr.
    + destruct (m !! policyNameOf indexName) as [lc |] eqn:Hm;
        [| intros [= <- _ _] Hr; discriminate Hr].
      destruct (extractPolicyDetails (elastic.Policy lc)) as [err | [[[a s] d] ro]] eqn:Hx;
        [intros [= <- _ _] Hr; discriminate Hr |].
      destruct (fieldsDiffer pd a s d ro) eqn:Hdiff.
      * intros H _ Hno. destruct (Happly H Hno).
      * specialize (IH st1).
        destruct (createOrUpdatePolicies R es rest st1) as [[r2 st2] t2].
        intros [= -> -> <-] Hr Hno. inversion Hno as [| ? ? _ Hno']. subst.
        constructor; [| now apply (IH t2)].
        exists (inr m). split; [reflexivity |]. exists m, lc.
        split; [reflexivity | split; [exact Hm |]].
        rewrite Hx. f_equal. now apply fieldsDiffer_false.
Qed.

(** X15. A fetch that fails with anything but not-found, or whose document
    does not decode, ends the run: the run returns that error, the fetch is
    its last request, and nothing is applied. *)
Theorem fetch_failure_stops_run es listPolicy st r st' t policyName res err :
  createOrUpdatePolicies R es listPolicy st = (r, st', t) →
  XPackIlmGetLifecycle policyName res ∈ t →
  (res = inl err ∧ IsNotFound err = false)
  ∨ (∃ m lifecycle, res = inr m ∧ m !! policyName = Some lifecycle
                    ∧ extractPolicyDetails (elastic.Policy lifecycle) = inl err) →
  r = Returned (Some err)
  ∧ (∃ t', t = t' ++ [XPackIlmGetLifecycle policyName res])
  ∧ Forall (λ ev, isPutLifecycle ev = false) t.
Proof.
  revert st t. induction listPolicy as [| [indexName pd] rest IH]; intros st t.
  - simpl. unfold ret. intros [= _ _ <-] Hin. now apply elem_of_nil in Hin.
  - rewrite createOrUpdatePolicies_cons. cbv zeta.
    destruct (client es); [| intros [= _ _ <-] Hin; now apply elem_of_nil in Hin].
    destruct (getLifecycle R (policyNameOf indexName) st) as [res0 st1].
    assert (Happly :
      callsForApply pd (policyNameOf indexName) res0 →
      (let '(e0, st2) := putLifecycle R (policyNameOf indexName) (policy pd) st1 in
       (Returned e0, st2,
        [XPackIlmGetLifecycle (policyNameOf indexName) res0;
         XPackIlmPutLifecycle (policyNameOf indexName) (policy pd) e0])) = (r, st', t) →
      XPackIlmGetLifecycle policyName res ∈ t →
      (res = inl err ∧ IsNotFound err = false)
      ∨ (∃ m lifecycle, res = inr m ∧ m !! policyName = Some lifecycle
                        ∧ extractPolicyDetails (elastic.Policy lifecycle) = inl err) →
      False).
    { destruct (putLifecycle R (policyNameOf indexName) (policy pd) st1) as [e0 st2].
      intros Hcall [= _ _ <-] Hin Hbad.
      apply elem_of_cons in Hin as [Hin | Hin];
        [| apply list_elem_of_singleton in Hin; discriminate Hin].
      injection Hin as -> ->.
      destruct Hbad as [[-> Hnf] | (m & lc & -> & Hm & Hx)]; simpl in Hcall.
      - congruence.
      - destruct Hcall as (lc' & a & s & d & ro & Hm' & Hx' & _). congruence. }
    assert (Hlast :
      ∀ e0, (Returned (Some e0), st1, [XPackIlmGetLifecycle (policyNameOf indexName) res0])
            = (r, st', t) →
      (res0 = inl e0 ∧ IsNotFound e0 = false)
      ∨ (∃ m lifecycle, res0 = inr m ∧ m !! policyNameOf indexName = Some lifecycle
                        ∧ extractPolicyDetails (elastic.Policy lifecycle) = inl e0) →
      XPackIlmGetLifecycle policyName res ∈ t →
      (res = inl err ∧ IsNotFound err = false)
      ∨ (∃ m lifecycle, res = inr m ∧ m !! policyName = Some lifecycle
                        ∧ extractPolicyDetails (elastic.Policy lifecycle) = inl err) →
      r = Returned (Some err)
      ∧ (∃ t', t = t' ++ [XPackIlmGetLifecycle policyName res])
      ∧ Forall (λ ev, isPutLifecycle ev = false) t).
    { intros e0 [= <- _ <-] Hwhy Hin Hbad.
      apply list_elem_of_singleton in Hin. injection Hin as -> ->.
      assert (e0 = err).
      { destruct Hwhy as [[-> _] | (m & lc & -> & Hm & Hx)];
          destruct Hbad as [[Hres _] | (m' & lc' & Hres & Hm' & Hx')];
          try discriminate Hres; injection Hres as <-; congruence. }
      subst e0. split; [reflexivity |]. split; [now exists [] |]. repeat constructor. }
    destruct res0 as [err0 | m].
    + destruct (IsNotFound err0) eqn:Hnf.
      * intros H Hin Hbad. destruct (Happly Hnf H Hin Hbad).
      * intros H. apply (Hlast err0 H). left. now split.
    + destruct (m !! policyNameOf indexName) as [lc |] eqn:Hm.
      2:{ intros [= _ _ <-] Hin Hbad. apply list_elem_of_singleton in Hin.
          injection Hin as -> ->.
          destruct Hbad as [[Hres _] | (m' & lc' & Hres & Hm' & _)];
            [discriminate Hres | injection Hres as <-; congruence]. }
      destruct (extractPolicyDetails (elastic.Policy lc)) as [err0 | [[[a s] d] ro]] eqn:Hx.
      { intros H. apply (Hlast err0 H). right. now exists m, lc. }
      destruct (fieldsDiffer pd a s d ro) eqn:Hdiff.
      * intros H Hin Hbad. refine (False_ind _ (Happly _ H Hin Hbad)).
        simpl. now exists lc, a, s, d, ro.
      * specialize (IH st1).
        destruct (createOrUpdatePolicies R es rest st1) as [[r2 st2] t2].
        intros [= -> -> <-] Hin Hbad.
        apply elem_of_cons in Hin as [Hin | Hin].
        { injection Hin as -> ->. exfalso.
          destruct Hbad as [[Hres _] | (m' & lc' & Hres & Hm' & Hx')];
            [discriminate Hres | injection Hres as <-; congruence]. }
        destruct (IH t2 eq_refl Hin Hbad) as (Hr & [t' Ht'] & Hno).
        split; [exact Hr |]. split.
        -- exists (XPackIlmGetLifecycle (policyNameOf indexName) (inr m) :: t').
           now rewrite Ht'.
        -- now constructor.
Qed.

(** X16. A run applies at most once, and the apply ends it: the apply is
    the last request, it directly follows the fetch of the same policy,
    which reported the policy missing or different, it sends the desired
    document of that category, and the run returns what the apply
    answered. *)
Theorem apply_ends_run es listPolicy st r st' t policyName body e :
  createOrUpdatePolicies R es listPolicy st = (r, st', t) →
  XPackIlmPutLifecycle policyName body e ∈ t →
  ∃ t' res indexName pd,
    t = t' ++ [XPackIlmGetLifecycle policyName res; XPackIlmPutLifecycle policyName body e]
    ∧ Forall (λ ev, isPutLifecycle ev = false) t'
    ∧ r = Returned e
    ∧ (indexName, pd) ∈ listPolicy
    ∧ policyName = policyNameOf indexName
    ∧ body = policy pd
    ∧ callsForApply pd policyName res.
Proof.
  revert st t. induction listPolicy as [| [indexName pd] rest IH]; intros st t.
  - simpl. unfold ret. intros [= _ _ <-] Hin. now apply elem_of_nil in Hin.
  - rewrite createOrUpdatePolicies_cons. cbv zeta.
    destruct (client es); [| intros [= _ _ <-] Hin; now apply elem_of_nil in Hin].
    destruct (getLifecycle R (policyNameOf indexName) st) as [res0 st1].
    assert (Happly :
      callsForApply pd (policyNameOf indexName) res0 →
      (let '(e0, st2) := putLifecycle R (policyNameOf indexName) (policy pd) st1 in
       (Returned e0, st2,
        [XPackIlmGetLifecycle (policyNameOf indexName) res0;
         XPackIlmPutLifecycle (policyNameOf indexName) (policy pd) e0])) = (r, st', t) →
      XPackIlmPutLifecycle policyName body e ∈ t →
      ∃ t' res indexName0 pd0,
        t = t' ++ [XPackIlmGetLifecycle policyName res;
                   XPackIlmPutLifecycle policyName body e]
        ∧ Forall (λ ev, isPutLifecycle ev = false) t'
        ∧ r = Returned e
        ∧ (indexName0, pd0) ∈ (indexName, pd) :: rest
        ∧ policyName = policyNameOf indexName0
        ∧ body = policy pd0
        ∧ callsForApply pd0 policyName res).
    { destruct (putLifecycle R (policyNameOf indexName) (policy pd) st1) as [e0 st2].
      intros Hcall [= <- _ <-] Hin.
      apply elem_of_cons in Hin as [Hin | Hin]; [discriminate Hin |].
      apply list_elem_of_singleton in Hin. injection Hin as -> -> ->.
      exists [], res0, indexName, pd.
      split; [reflexivity |]. split; [constructor |]. split; [reflexivity |].
      split; [apply list_elem_of_here |]. auto. }
    assert (Hone : ∀ r0, (r0, st1, [XPackIlmGetLifecycle (policyNameOf indexName) res0])
                         = (r, st', t) →
                   XPackIlmPutLifecycle policyName body e ∈ t → False).
    { intros r0 [= _ _ <-] Hin. apply list_elem_of_singleton in Hin. discriminate Hin. }
    destruct res0 as [err0 | m].
    + destruct (IsNotFound err0) eqn:Hnf.
      * now apply Happly.
      * intros H Hin. destruct (Hone _ H Hin).
    + destruct (m !! policyNameOf indexName) as [lc |] eqn:Hm;
        [| intros H Hin; destruct (Hone _ H Hin)].
      destruct (extractPolicyDetails (elastic.Policy lc)) as [err0 | [[[a s] d] ro]] eqn:Hx;
        [intros H Hin; destruct (Hone _ H Hin) |].
      destruct (fieldsDiffer pd a s d ro) eqn:Hdiff.
      * apply Happly. simpl. now exists lc, a, s, d, ro.
      * specialize (IH st1).
        destruct (createOrUpdatePolicies R es rest st1) as [[r2 st2] t2].
        intros [= -> -> <-] Hin.
        apply elem_of_cons in Hin as [Hin | Hin]; [discriminate Hin |].
        destruct (IH t2 eq_refl Hin)
          as (t' & res & n0 & pd0 & -> & Hno & Hr & Hmem & Hname & Hbody & Hcall).
        exists (XPackIlmGetLifecycle (policyNameOf indexName) (inr m) :: t'), res, n0, pd0.
        split; [reflexivity |]. split; [now constructor |]. split; [exact Hr |].
        split; [now apply list_elem_of_further |]. auto.
Qed.

End ReconcileRuns.

Lemma quiet_run_means_in_sync_witness :
  Forall2 (λ entry ev,
             ∃ res, ev = XPackIlmGetLifecycle (policyNameOf entry.1) res
                    ∧ observedEqual entry.2 (policyNameOf entry.1) res)
          [("tigera_secure_ee_flows"%string, flowsPolicy)]
          [XPackIlmGetLifecycle "tigera_secure_ee_flows_policy"
             (inr {[ "tigera_secure_ee_flows_policy"%string :=
                       {| elastic.Policy := storedPolicy (policy flowsPolicy) |} ]})].
Proof.
  apply (quiet_run_means_in_sync policyStore connected
           [("tigera_secure_ee_flows"%string, flowsPolicy)]
           {[ "tigera_secure_ee_flows_policy"%string := policy flowsPolicy ]}
           (Returned None)
           {[ "tigera_secure_ee_flows_policy"%string := policy flowsPolicy ]}).
  - reflexivity.
  - reflexivity.
  - repeat constructor.
Defined.

(** A run over a store whose first document does not decode. *)
Lemma garbled_run :
  createOrUpdatePolicies policyStore connected flowsThenDns
    {[ "tigera_secure_ee_flows_policy"%string := garbled ]}
  = (Returned (Some UnmarshalTypeError),
     {[ "tigera_secure_ee_flows_policy"%string := garbled ]},
     [XPackIlmGetLifecycle "tigera_secure_ee_flows_policy"
        (inr {[ "tigera_secure_ee_flows_policy"%string :=
                  {| elastic.Policy := storedPolicy garbled |} ]})]).
Proof.
  unfold flowsThenDns. rewrite createOrUpdatePolicies_cons. cbv zeta.
  change (client connected) with (Some someClient). cbv iota beta.
  change (policyNameOf "tigera_secure_ee_flows") with "tigera_secure_ee_flows_policy"%string.
  assert (Hget : getLifecycle policyStore "tigera_secure_ee_flows_policy"
                   {[ "tigera_secure_ee_flows_policy"%string := garbled ]}
                 = (inr {[ "tigera_secure_ee_flows_policy"%string :=
                             {| elastic.Policy := storedPolicy garbled |} ]},
                    {[ "tigera_secure_ee_flows_policy"%string := garbled ]})).
  { cbn [getLifecycle policyStore]. rewrite lookup_singleton_eq. reflexivity. }
  rewrite Hget, lookup_singleton_eq.
  assert (Hx : extractPolicyDetails (storedPolicy garbled) = inl UnmarshalTypeError)
    by (vm_compute; reflexivity).
  cbn [elastic.Policy]. rewrite Hx. reflexivity.
Qed.

Lemma fetch_failure_stops_run_witness :
  ∃ err,
    (createOrUpdatePolicies policyStore connected flowsThenDns
       {[ "tigera_secure_ee_flows_policy"%string := garbled ]}).1.1 = Returned (Some err)
    ∧ length (createOrUpdatePolicies policyStore connected flowsThenDns
                {[ "tigera_secure_ee_flows_policy"%string := garbled ]}).2 = 1%nat.
Proof.
  exists UnmarshalTypeError.
  destruct (fetch_failure_stops_run policyStore connected flowsThenDns _ _ _ _
              "tigera_secure_ee_flows_policy"
              (inr {[ "tigera_secure_ee_flows_policy"%string :=
                        {| elastic.Policy := storedPolicy garbled |} ]})
              UnmarshalTypeError garbled_run) as (Hr & _ & _).
  - apply list_elem_of_here.
  - right. eexists _, _. split; [reflexivity |]. split; [apply lookup_singleton_eq |].
    vm_compute. reflexivity.
  - rewrite garbled_run. split; [exact Hr | reflexivity].
Defined.

Lemma apply_ends_run_witness :
  (createOrUpdatePolicies policyStore connected flowsThenDns ∅).1.1 = Returned None
  ∧ XPackIlmPutLifecycle "tigera_secure_ee_flows_policy" (policy flowsPolicy) None
    ∈ (createOrUpdatePolicies policyStore connected flowsThenDns ∅).2.
Proof.
  destruct (createOrUpdatePolicies policyStore connected flowsThenDns ∅)
    as [[r st'] t] eqn:Hrun.
  assert (Hin : XPackIlmPutLifecycle "tigera_secure_ee_flows_policy" (policy flowsPolicy) None
                ∈ t).
  { assert (Hfirst :
      createOrUpdatePolicies policyStore connected flowsThenDns ∅
      = (Returned None,
         {[ "tigera_secure_ee_flows_policy"%string := policy flowsPolicy ]},
         [XPackIlmGetLifecycle "tigera_secure_ee_flows_policy" (inl notFound);
          XPackIlmPutLifecycle "tigera_secure_ee_flows_policy" (policy flowsPolicy) None]))
      by (eapply (createOrUpdatePolicies_missing_first policyStore); reflexivity).
    rewrite Hfirst in Hrun. injection Hrun as _ _ <-.
    apply list_elem_of_further, list_elem_of_here. }
  destruct (apply_ends_run policyStore connected flowsThenDns ∅ r st' t _ _ _ Hrun Hin)
    as (_ & _ & _ & _ & _ & _ & Hr & _).
  split; [exact Hr | exact Hin].
Defined.

(** ** The policies of a LogStorage, continued *)

(** The ten entries of the table of [listILMPolicies]. *)
Lemma listILMPolicies_entries gi ls policyList :
  listILMPolicies gi ls = Returned policyList →
  ∃ flows dnsLogs bgpLogs auditReports snapshots complianceReports entries,
    Spec_Retention ls
    = {| Flows := Some flows; DNSLogs := Some dnsLogs; BGPLogs := Some bgpLogs;
         AuditReports := Some auditReports; Snapshots := Some snapshots;
         ComplianceReports := Some complianceReports |}
    ∧ policyList = list_to_map entries
    ∧ entries.*1 = indexNames
    ∧ let total := getTotalEsDisk gi ls in
      let minor := fdiv (decimal 1 10) (float64_of_int 6) in
      entries.*2
      = [buildILMPolicy total (decimal 7 10) (decimal 85 100) flows true;
         buildILMPolicy total (decimal 7 10) (decimal 5 100) dnsLogs true;
         buildILMPolicy total (decimal 7 10) (decimal 5 100) bgpLogs true;
         buildILMPolicy total (decimal 7 10) (decimal 5 100) 1 true;
         buildILMPolicy total (decimal 1 10) minor auditReports true;
         buildILMPolicy total (decimal 1 10) minor auditReports true;
         buildILMPolicy total (decimal 1 10) minor snapshots true;
         buildILMPolicy total (decimal 1 10) minor complianceReports true;
         buildILMPolicy total (decimal 1 10) minor 91 true;
         buildILMPolicy total (decimal 1 10) minor 91 false].
Proof.
  unfold listILMPolicies. destruct (Spec_Retention ls) as [f d b a s c].
  destruct f as [flows |]; [| discriminate].
  destruct d as [dnsLogs |]; [| discriminate].
  destruct b as [bgpLogs |]; [| discriminate].
  destruct a as [auditReports |]; [| discriminate].
  destruct s as [snapshots |]; [| discriminate].
  destruct c as [complianceReports |]; [| discriminate].
  cbv zeta. intros Hlist.
  exists flows, dnsLogs, bgpLogs, auditReports, snapshots, complianceReports.
  set (total := getTotalEsDisk gi ls) in *.
  set (minor := fdiv (decimal 1 10) (float64_of_int 6)) in *.
  set (major := decimal 7 10) in *. set (tenth := decimal 1 10) in *.
  set (most := decimal 85 100) in *. set (few := decimal 5 100) in *.
  exists [("tigera_secure_ee_flows"%string, buildILMPolicy total major most flows true);
          ("tigera_secure_ee_dns"%string, buildILMPolicy total major few dnsLogs true);
          ("tigera_secure_ee_bgp"%string, buildILMPolicy total major few bgpLogs true);
          ("tigera_secure_ee_l7"%string, buildILMPolicy total major few 1 true);
          ("tigera_secure_ee_audit_ee"%string,
             buildILMPolicy total tenth minor auditReports true);
          ("tigera_secure_ee_audit_kube"%string,
             buildILMPolicy total tenth minor auditReports true);
          ("tigera_secure_ee_snapshots"%string,
             buildILMPolicy total tenth minor snapshots true);
          ("tigera_secure_ee_compliance_reports"%string,
             buildILMPolicy total tenth minor complianceReports true);
          ("tigera_secure_ee_benchmark_results"%string,
             buildILMPolicy total tenth minor 91 true);
          ("tigera_secure_ee_events"%string, buildILMPolicy total tenth minor 91 false)].
  split; [reflexivity |]. split; [now injection Hlist |]. split; reflexivity.
Qed.



(** The rollover size of a synthesized policy, for shares in the unit
    interval. *)
Lemma rolloverSize_bounded (total : Z) (p q : float64) (retention : Z) (ro : bool) :
  0 < total ≤ max_int64 →
  valid_binary prec emax p = true ∧ fleb zero p = true ∧ fleb p one = true →
  valid_binary prec emax q = true ∧ fleb zero q = true ∧ fleb q one = true →
  ∃ z, 0 ≤ z ≤ 30 * 2 ^ 30
       ∧ rolloverSize (buildILMPolicy total p q retention ro) = (fmt_d z +:+ "b")%string.
Proof.
  intros Ht (Hvp & Hp0 & Hp1) (Hvq & Hq0 & Hq1).
  destruct (rollover_in_range total p q Ht Hvp Hp0 Hp1 Hvq Hq0 Hq1)
    as (exact & _ & Hrange & Hconv).
  exists (Z.min exact (30 * 2 ^ 30)). split; [lia |].
  change (rolloverSize (buildILMPolicy total p q retention ro))
    with (calculateRolloverSize total p q).
  rewrite calculateRolloverSize_capped. now rewrite Hconv.
Qed.

(** X18. When the total disk of the LogStorage is positive (and an int64),
    every rollover size of the table of [listILMPolicies] is a decimal
    number of bytes between 0 and 30 GiB, followed by [b]. *)
Theorem listILMPolicies_sizes_capped
    (gi : Z) (ls : LogStorage) (policyList : gmap string policyDetail)
    (indexName : string) (pd : policyDetail) :
  listILMPolicies gi ls = Returned policyList →
  0 < getTotalEsDisk gi ls ≤ max_int64 →
  policyList !! indexName = Some pd →
  ∃ z, 0 ≤ z ≤ 30 * 2 ^ 30 ∧ rolloverSize pd = (fmt_d z +:+ "b")%string.
Proof.
  intros Hlist Ht Hpd.
  destruct (listILMPolicies_entries gi ls policyList Hlist)
    as (flows & dnsLogs & bgpLogs & auditReports & snapshots & complianceReports
        & entries & _ & -> & _ & Hvals).
  cbv zeta in Hvals.
  apply elem_of_list_to_map_2 in Hpd.
  assert (Hin : pd ∈ entries.*2).
  { apply list_elem_of_fmap. exists (indexName, pd). split; [reflexivity | exact Hpd]. }
  rewrite Hvals in Hin. clear Hvals Hpd.
  assert (Hmajor : valid_binary prec emax (decimal 7 10) = true
                   ∧ fleb zero (decimal 7 10) = true ∧ fleb (decimal 7 10) one = true)
    by (vm_compute; auto).
  assert (Htenth : valid_binary prec emax (decimal 1 10) = true
                   ∧ fleb zero (decimal 1 10) = true ∧ fleb (decimal 1 10) one = true)
    by (vm_compute; auto).
  assert (Hmost : valid_binary prec emax (decimal 85 100) = true
                  ∧ fleb zero (decimal 85 100) = true ∧ fleb (decimal 85 100) one = true)
    by (vm_compute; auto).
  assert (Hfew : valid_binary prec emax (decimal 5 100) = true
                 ∧ fleb zero (decimal 5 100) = true ∧ fleb (decimal 5 100) one = true)
    by (vm_compute; auto).
  assert (Hminor :
    valid_binary prec emax (fdiv (decimal 1 10) (float64_of_int 6)) = true
    ∧ fleb zero (fdiv (decimal 1 10) (float64_of_int 6)) = true
    ∧ fleb (fdiv (decimal 1 10) (float64_of_int 6)) one = true)
    by (vm_compute; auto).
  repeat (apply elem_of_cons in Hin as [-> | Hin];
          [apply rolloverSize_bounded; assumption |]).
  now apply elem_of_nil in Hin.
Qed.

Lemma listILMPolicies_sizes_capped_witness :
  ∃ z, 0 ≤ z ≤ 30 * 2 ^ 30
       ∧ rolloverSize (buildILMPolicy (GiValue 10) (decimal 7 10) (decimal 85 100) 8 true)
         = (fmt_d z +:+ "b")%string.
Proof.
  assert (Hlist : ∃ policyList,
            listILMPolicies 10 defaultLogStorage = Returned policyList
            ∧ policyList !! "tigera_secure_ee_flows"%string
              = Some (buildILMPolicy (GiValue 10) (decimal 7 10) (decimal 85 100) 8 true)).
  { eexists. split; [reflexivity |]. vm_compute. reflexivity. }
  destruct Hlist as (policyList & Hlist & Hflows).
  apply (listILMPolicies_sizes_capped 10 defaultLogStorage policyList
           "tigera_secure_ee_flows" _ Hlist); [| exact Hflows].
  vm_compute. split; [reflexivity | discriminate].
Defined.

(** X19. Whatever the store answers and in whichever order the table is
    visited, [SetILMPolicies] applies only policies of the table: the name
    is one of the ten index names followed by [_policy], and the body is
    the synthesized document of that entry. *)
Theorem SetILMPolicies_writes_known_policies {St : Type} (R : Remote St)
    (iter : gmap string policyDetail → list (string * policyDetail))
    (gi : Z) (es : esClient) (ls : LogStorage) (st : St)
    (policyName : string) (body : gmap string json) (e : option error) :
  (∀ m, iter m ≡ₚ map_to_list m) →
  XPackIlmPutLifecycle policyName body e ∈ (SetILMPolicies R iter gi es ls st).2 →
  ∃ indexName policyList pd,
    listILMPolicies gi ls = Returned policyList
    ∧ policyList !! indexName = Some pd
    ∧ indexName ∈ indexNames
    ∧ policyName = policyNameOf indexName
    ∧ body = policy pd.
Proof.
  intros Hiter. unfold SetILMPolicies.
  destruct (listILMPolicies gi ls) as [policyList |] eqn:Hlist;
    [| intros Hin; now apply elem_of_nil in Hin].
  intros Hin.
  destruct (apply_follows_fetch R es (iter policyList) st _ _ _ Hin)
    as (indexName & pd & _ & Hmem & Hname & Hbody & _).
  rewrite Hiter in Hmem. apply elem_of_map_to_list in Hmem.
  exists indexName, policyList, pd.
  split; [reflexivity |]. split; [exact Hmem |]. split; [| now split].
  destruct (listILMPolicies_entries gi ls policyList Hlist)
    as (_ & _ & _ & _ & _ & _ & entries & _ & -> & Hkeys & _).
  apply elem_of_list_to_map_2 in Hmem. rewrite <- Hkeys.
  apply list_elem_of_fmap. exists (indexName, pd). split; [reflexivity | exact Hmem].
Qed.

Lemma SetILMPolicies_writes_known_policies_witness :
  ∃ indexName body,
    indexName ∈ indexNames
    ∧ XPackIlmPutLifecycle (policyNameOf indexName) body None
      ∈ (SetILMPolicies policyStore map_to_list 10 connected defaultLogStorage ∅).2.
Proof.
  assert (Hlast : ∃ t' policyName body,
            (SetILMPolicies policyStore map_to_list 10 connected defaultLogStorage ∅).2
            = t' ++ [XPackIlmPutLifecycle policyName body None]).
  { eexists [_], _, _. vm_compute. reflexivity. }
  destruct Hlast as (t' & policyName & body & Hlast).
  assert (Hin : XPackIlmPutLifecycle policyName body None
                ∈ (SetILMPolicies policyStore map_to_list 10 connected defaultLogStorage ∅).2).
  { rewrite Hlast. apply elem_of_app. right. apply list_elem_of_here. }
  destruct (SetILMPolicies_writes_known_policies policyStore map_to_list 10 connected
              defaultLogStorage ∅ policyName body None (λ m, reflexivity _) Hin)
    as (indexName & _ & _ & _ & _ & Hknown & Hname & _).
  exists indexName, body. split; [exact Hknown |]. now rewrite <- Hname.
Defined.

(** ** Repeated reconciling against a store that keeps what it is sent *)

Lemma inSync_observedEqual st indexName pd :
  inSync st indexName pd = true
  ↔ observedEqual pd (policyNameOf indexName)
      (getLifecycle policyStore (policyNameOf indexName) st).1.
Proof.
  unfold inSync, observedEqual. simpl.
  destruct (st !! policyNameOf indexName) as [body |]; simpl.
  - split.
    + intros H. eexists _, _. split; [reflexivity |].
      split; [apply lookup_singleton_eq |]. simpl.
      destruct (extractPolicyDetails (storedPolicy body)) as [err | [[[a s] d] ro]];
        [discriminate |].
      f_equal. apply fieldsDiffer_false. now destruct (fieldsDiffer pd a s d ro).
    + intros (m & lc & [= <-] & Hm & Hx). rewrite lookup_singleton_eq in Hm.
      injection Hm as <-. simpl in Hx. rewrite Hx.
      apply negb_true_iff. now apply fieldsDiffer_false.
  - split; [discriminate |]. intros (m & lc & H & _). discriminate H.
Qed.

(** One turn of the loop against this store. *)
Lemma policyStore_run_cons c indexName pd rest st :
  readable st →
  createOrUpdatePolicies policyStore {| client := Some c |} ((indexName, pd) :: rest) st
  = if inSync st indexName pd
    then
      let '(r, st2, t) :=
        createOrUpdatePolicies policyStore {| client := Some c |} rest st in
      (r, st2, fetchOf st (indexName, pd) :: t)
    else
      (Returned None, <[policyNameOf indexName := policy pd]> st,
       [fetchOf st (indexName, pd);
        XPackIlmPutLifecycle (policyNameOf indexName) (policy pd) None]).
Proof.
  intros Hreadable. rewrite createOrUpdatePolicies_cons. cbv zeta.
  unfold fetchOf, inSync. simpl.
  destruct (st !! policyNameOf indexName) as [body |] eqn:Hst; simpl; [| reflexivity].
  rewrite lookup_singleton_eq. simpl.
  destruct (Hreadable _ _ Hst) as [[[[a s] d] ro] Hx]. rewrite Hx.
  destruct (fieldsDiffer pd a s d ro); reflexivity.
Qed.

(** One run, spelled out: it fetches the categories in order up to the
    first one that is not in sync, applies that one and returns. *)
Lemma policyStore_run c listPolicy st :
  readable st →
  (Forall (λ entry, inSync st entry.1 entry.2 = true) listPolicy
   ∧ createOrUpdatePolicies policyStore {| client := Some c |} listPolicy st
     = (Returned None, st, fetchOf st <$> listPolicy))
  ∨ (∃ l1 indexName pd l2,
       listPolicy = l1 ++ (indexName, pd) :: l2
       ∧ Forall (λ entry, inSync st entry.1 entry.2 = true) l1
       ∧ inSync st indexName pd = false
       ∧ createOrUpdatePolicies policyStore {| client := Some c |} listPolicy st
         = (Returned None, <[policyNameOf indexName := policy pd]> st,
            (fetchOf st <$> l1)
            ++ [fetchOf st (indexName, pd);
                XPackIlmPutLifecycle (policyNameOf indexName) (policy pd) None])).
Proof.
  intros Hreadable. induction listPolicy as [| [indexName pd] rest IH].
  - left. split; [constructor | reflexivity].
  - rewrite (policyStore_run_cons c indexName pd rest st Hreadable).
    destruct (inSync st indexName pd) eqn:Hsync.
    + destruct IH as [[Hall ->] | (l1 & n & pd' & l2 & -> & Hall & Hout & ->)].
      * left. split; [now constructor | reflexivity].
      * right. exists ((indexName, pd) :: l1), n, pd', l2.
        split; [reflexivity |]. split; [now constructor |]. split; [exact Hout | reflexivity].
    + right. exists [], indexName, pd, rest.
      split; [reflexivity |]. split; [constructor |]. split; [exact Hsync | reflexivity].
Qed.

Lemma filter_length_Permutation {A} (f : A → bool) (l l' : list A) :
  l ≡ₚ l' → length (List.filter f l) = length (List.filter f l').
Proof.
  induction 1 as [| x l l' _ IH | x y l | l l' l'' _ IH1 _ IH2]; simpl.
  - reflexivity.
  - destruct (f x); simpl; now rewrite IH.
  - destruct (f x), (f y); reflexivity.
  - now rewrite IH1.
Qed.

Lemma outOfSync_zero st listPolicy :
  outOfSync st listPolicy = 0%nat
  ↔ Forall (λ entry, inSync st entry.1 entry.2 = true) listPolicy.
Proof.
  unfold outOfSync. induction listPolicy as [| entry rest IH]; simpl.
  - split; [constructor | reflexivity].
  - destruct (inSync st entry.1 entry.2) eqn:Hin; simpl.
    + rewrite IH. split; [now constructor | now inversion 1].
    + split; [discriminate | inversion 1; congruence].
Qed.

Lemma inSync_after_apply st indexName pd :
  built pd → inSync (<[policyNameOf indexName := policy pd]> st) indexName pd = true.
Proof.
  intros (total & p & q & retention & ro & ->). unfold inSync.
  rewrite lookup_insert_eq, extract_build.
  apply negb_true_iff. now apply fieldsDiffer_false.
Qed.

Lemma inSync_other st indexName pd indexName' pd' :
  indexName' ≠ indexName →
  inSync (<[policyNameOf indexName := policy pd]> st) indexName' pd'
  = inSync st indexName' pd'.
Proof.
  intros Hne. unfold inSync. rewrite lookup_insert_ne; [reflexivity |].
  intros H. apply Hne. symmetry. now apply policyNameOf_inj.
Qed.

Lemma outOfSync_other st indexName pd l :
  indexName ∉ l.*1 →
  outOfSync (<[policyNameOf indexName := policy pd]> st) l = outOfSync st l.
Proof.
  intros Hnot. unfold outOfSync. f_equal. apply List.filter_ext_in.
  intros [n pd'] Hin. simpl. rewrite inSync_other; [reflexivity |].
  intros ->. apply Hnot. apply list_elem_of_fmap. exists (indexName, pd').
  split; [reflexivity |]. now apply list_elem_of_In.
Qed.

Lemma readable_after_apply st indexName pd :
  built pd → readable st → readable (<[policyNameOf indexName := policy pd]> st).
Proof.
  intros (total & p & q & retention & ro & ->) Hreadable name body.
  destruct (decide (name = policyNameOf indexName)) as [-> | Hne].
  - rewrite lookup_insert_eq. intros Hbody.
    assert (body = policy (buildILMPolicy total p q retention ro)) as -> by congruence.
    rewrite extract_build. eauto.
  - rewrite lookup_insert_ne by congruence. apply Hreadable.
Qed.

(** One run brings exactly one category in sync, if any is not. *)
Lemma reconcile_run_step c listPolicy st :
  NoDup listPolicy.*1 →
  (∀ indexName pd, (indexName, pd) ∈ listPolicy → built pd) →
  readable st →
  let st' := (createOrUpdatePolicies policyStore {| client := Some c |} listPolicy st).1.2 in
  readable st' ∧ outOfSync st' listPolicy = pred (outOfSync st listPolicy).
Proof.
  intros Hnodup Hbuilt Hreadable. cbv zeta.
  destruct (policyStore_run c listPolicy st Hreadable)
    as [[Hall ->] | (l1 & indexName & pd & l2 & -> & Hall & Hout & ->)].
  - simpl. split; [exact Hreadable |].
    apply outOfSync_zero in Hall. now rewrite Hall.
  - simpl.
    assert (Hpd : built pd).
    { apply (Hbuilt indexName). apply elem_of_app. right. apply list_elem_of_here. }
    split; [now apply readable_after_apply |].
    rewrite fmap_app, fmap_cons in Hnodup. simpl in Hnodup.
    apply NoDup_app in Hnodup as (_ & Hl1 & Hl2).
    apply NoDup_cons in Hl2 as [Hl2 _].
    assert (Hnot1 : indexName ∉ l1.*1).
    { intros Hin. apply (Hl1 _ Hin). apply list_elem_of_here. }
    pose proof (outOfSync_other st indexName pd l1 Hnot1) as E1.
    pose proof (outOfSync_other st indexName pd l2 Hl2) as E2.
    unfold outOfSync in *. rewrite !List.filter_app, !length_app. simpl.
    rewrite (inSync_after_apply st indexName pd Hpd), Hout. simpl.
    rewrite E1, E2. lia.
Qed.

Lemma reconcile_count c (listPolicy : gmap string policyDetail)
    (orders : list (list (string * policyDetail))) st :
  Forall (λ order, order ≡ₚ map_to_list listPolicy) orders →
  (∀ indexName pd, listPolicy !! indexName = Some pd → built pd) →
  readable st →
  outOfSync (reconcile {| client := Some c |} orders st) (map_to_list listPolicy)
  = (outOfSync st (map_to_list listPolicy) - length orders)%nat.
Proof.
  intros Horders Hbuilt. revert st.
  induction Horders as [| order orders Horder _ IH]; intros st Hreadable.
  - simpl. lia.
  - simpl.
    destruct (reconcile_run_step c order st) as [Hreadable' Hstep].
    + rewrite Horder. apply NoDup_fst_map_to_list.
    + intros indexName pd Hin. rewrite Horder in Hin.
      apply elem_of_map_to_list in Hin. now apply (Hbuilt indexName).
    + exact Hreadable.
    + cbv zeta in Hreadable', Hstep. rewrite (IH _ Hreadable').
      unfold outOfSync in Hstep |- *.
      rewrite <- !(filter_length_Permutation _ _ _ Horder), Hstep. lia.
Qed.

(** X20. In a store that keeps what it is sent and holds only documents
    that decode, every run of [createOrUpdatePolicies] over policies made by
    [buildILMPolicy] brings exactly one more category in sync, whatever the
    iteration orders: after [k] runs the number of categories out of sync
    has gone down by [k] (or to zero). So as many runs as there are
    categories bring every category in sync, and from a state with [k]
    categories out of sync no fewer than [k] runs do. *)
Theorem reconcile_fixes_one_per_run
    (c : Client) (listPolicy : gmap string policyDetail)
    (orders : list (list (string * policyDetail)))
    (st : gmap string (gmap string json)) :
  Forall (λ order, order ≡ₚ map_to_list listPolicy) orders →
  (∀ indexName pd, listPolicy !! indexName = Some pd → built pd) →
  readable st →
  let st' := reconcile {| client := Some c |} orders st in
  outOfSync st' (map_to_list listPolicy)
  = (outOfSync st (map_to_list listPolicy) - length orders)%nat
  ∧ ((size listPolicy ≤ length orders)%nat →
     ∀ indexName pd, listPolicy !! indexName = Some pd → inSync st' indexName pd = true)
  ∧ ((length orders < outOfSync st (map_to_list listPolicy))%nat →
     ∃ indexName pd, listPolicy !! indexName = Some pd ∧ inSync st' indexName pd = false).
Proof.
  intros Horders Hbuilt Hreadable. cbv zeta.
  pose proof (reconcile_count c listPolicy orders st Horders Hbuilt Hreadable) as Hcount.
  split; [exact Hcount |]. split.
  - intros Hsize indexName pd Hpd.
    assert (Hzero : outOfSync (reconcile {| client := Some c |} orders st)
                      (map_to_list listPolicy) = 0%nat).
    { rewrite Hcount.
      assert (outOfSync st (map_to_list listPolicy) ≤ size listPolicy)%nat; [| lia].
      unfold outOfSync. rewrite <- length_map_to_list. apply List.filter_length_le. }
    apply outOfSync_zero in Hzero. rewrite Forall_forall in Hzero.
    apply (Hzero (indexName, pd)). now apply elem_of_map_to_list.
  - intros Hfew.
    destruct (List.filter
                (λ entry, negb (inSync (reconcile {| client := Some c |} orders st)
                                  entry.1 entry.2))
                (map_to_list listPolicy)) as [| [indexName pd] rest] eqn:Hfilter.
    + unfold outOfSync in Hcount at 1. rewrite Hfilter in Hcount. simpl in Hcount. lia.
    + assert (Hin : In (indexName, pd)
                      (List.filter
                         (λ entry, negb (inSync (reconcile {| client := Some c |} orders st)
                                           entry.1 entry.2))
                         (map_to_list listPolicy)))
        by (rewrite Hfilter; now left).
      apply List.filter_In in Hin as [Hin Hout]. simpl in Hout.
      exists indexName, pd. split.
      * apply elem_of_map_to_list. now apply list_elem_of_In.
      * now apply negb_true_iff.
Qed.

Lemma reconcile_fixes_one_per_run_witness :
  outOfSync (reconcile connected [map_to_list twoPolicies] ∅) (map_to_list twoPolicies)
  = 1%nat
  ∧ outOfSync (reconcile connected [map_to_list twoPolicies; map_to_list twoPolicies] ∅)
      (map_to_list twoPolicies)
    = 0%nat.
Proof.
  assert (Hbuilt : ∀ indexName pd, twoPolicies !! indexName = Some pd → built pd).
  { intros indexName pd H. apply elem_of_list_to_map_2 in H.
    apply elem_of_cons in H as [H | H];
      [injection H as -> ->; eexists _, _, _, _, _; reflexivity |].
    apply elem_of_cons in H as [H | H];
      [injection H as -> ->; eexists _, _, _, _, _; reflexivity |].
    exfalso. revert H. apply not_elem_of_nil. }
  assert (Hreadable : readable ∅).
  { intros name body H. rewrite lookup_empty in H. discriminate H. }
  assert (Hstart : outOfSync ∅ (map_to_list twoPolicies) = 2%nat)
    by (vm_compute; reflexivity).
  assert (Hone : Forall (λ order, order ≡ₚ map_to_list twoPolicies)
                   [map_to_list twoPolicies])
    by (apply Forall_cons_2; [reflexivity | apply Forall_nil_2]).
  assert (Htwo : Forall (λ order, order ≡ₚ map_to_list twoPolicies)
                   [map_to_list twoPolicies; map_to_list twoPolicies])
    by (apply Forall_cons_2; [reflexivity | exact Hone]).
  split.
  - destruct (reconcile_fixes_one_per_run someClient twoPolicies _ ∅
                Hone Hbuilt Hreadable) as (Hcount & _).
    rewrite Hstart in Hcount. exact Hcount.
  - destruct (reconcile_fixes_one_per_run someClient twoPolicies _ ∅
                Htwo Hbuilt Hreadable) as (Hcount & _).
    rewrite Hstart in Hcount. exact Hcount.
Defined.
